(** * speciesnet-taxonomy-mapper: the matching engine, embedded and verified

    A shallow embedding of [taxonomy.py] (the reference-table loader and its
    lookups) and of [matcher.py] (the exact-match parser, the LLM-assisted
    batch pass and the ambiguity pass), followed by the properties of the
    specification that concern them.

    Conventions of the embedding.
    - A Python [str] is a [string]; a character is an [ascii], read as the
      code point of that number (code points 0..255).  [lower], [strip],
      [split] and [splitlines] follow CPython on that range.
    - A Python [dict] used as a map is a [gmap]; the two row dictionaries of
      the source are records.
    - A value decoded from JSON is a [pyval]; an operation that raises is a
      computation in [exc]. *)

From Stdlib Require Import Ascii String NArith ZArith Bool Lia.
From stdpp Require Import gmap strings list fin_maps.

Set Warnings "-register-all".

(** ** Python strings *)

Module PyStr.

(** [str.isspace] on one character: TAB..CR, FS..US, space, NEL, NBSP. *)
Definition isspace (c : ascii) : bool :=
  let n := N_of_ascii c in
  (((9 <=? n) && (n <=? 13)) || ((28 <=? n) && (n <=? 32))
   || (n =? 133) || (n =? 160))%N.

(** [str.lower] on one character: A..Z and the upper-case letters of the
    Latin-1 block (all of 192..222 but the multiplication sign 215). *)
Definition lower_char (c : ascii) : ascii :=
  let n := N_of_ascii c in
  if (((65 <=? n) && (n <=? 90))
      || ((192 <=? n) && (n <=? 222) && negb (n =? 215)))%N
  then ascii_of_N (n + 32) else c.

Fixpoint lower (s : string) : string :=
  match s with
  | EmptyString => EmptyString
  | String c s' => String (lower_char c) (lower s')
  end.

(** Truth value of a string: [if s:]. *)
Definition nonempty (s : string) : bool :=
  match s with EmptyString => false | String _ _ => true end.

Fixpoint lstrip (s : string) : string :=
  match s with
  | EmptyString => EmptyString
  | String c s' => if isspace c then lstrip s' else s
  end.

Fixpoint rstrip (s : string) : string :=
  match s with
  | EmptyString => EmptyString
  | String c s' =>
      let r := rstrip s' in
      if isspace c && negb (nonempty r) then EmptyString else String c r
  end.

(** [s.strip()] *)
Definition strip (s : string) : string := lstrip (rstrip s).

(** [s.startswith(p)] *)
Fixpoint startswith (p s : string) : bool :=
  match p, s with
  | EmptyString, _ => true
  | String a p', String b s' => if ascii_dec a b then startswith p' s' else false
  | String _ _, EmptyString => false
  end.

(** [s.split(sep)] for a non-empty separator: a left-to-right scan for
    non-overlapping occurrences.  [skip] counts the characters of a
    separator just recognised that are still to be passed over; [cur] is
    the current piece, reversed. *)
Fixpoint split_go (sep : string) (skip : nat) (cur : string) (s : string)
  : list string :=
  match s with
  | EmptyString => [String.rev cur]
  | String c s' =>
      match skip with
      | S k => split_go sep k cur s'
      | O =>
          if startswith sep s
          then String.rev cur :: split_go sep (String.length sep - 1) EmptyString s'
          else split_go sep 0 (String c cur) s'
      end
  end.

Definition split (sep s : string) : list string :=
  split_go sep 0 EmptyString s.

(** [sub in s] for strings. *)
Fixpoint contains (sub s : string) : bool :=
  startswith sub s ||
  match s with
  | EmptyString => false
  | String _ s' => contains sub s'
  end.

(** [s.split()]: the maximal runs of non-space characters. *)
Fixpoint words_go (cur : option string) (s : string) : list string :=
  match s with
  | EmptyString => option_list (String.rev <$> cur)
  | String c s' =>
      if isspace c
      then option_list (String.rev <$> cur) ++ words_go None s'
      else words_go (Some (String c (default EmptyString cur))) s'
  end.

Definition words (s : string) : list string := words_go None s.

(** Line boundaries of [str.splitlines]: LF, VT, FF, CR, FS, GS, RS, NEL
    (and CR LF taken as one). *)
Definition islinebreak (c : ascii) : bool :=
  let n := N_of_ascii c in
  (((10 <=? n) && (n <=? 13)) || ((28 <=? n) && (n <=? 30)) || (n =? 133))%N.

(** [s.splitlines()]: [after_cr] records that the previous character was
    a CR, so that an LF right after it does not open a new line; a
    trailing line break opens no empty last line. *)
Fixpoint splitlines_go (after_cr : bool) (cur : option string) (s : string)
  : list string :=
  match s with
  | EmptyString => option_list (String.rev <$> cur)
  | String c s' =>
      if islinebreak c then
        if after_cr && (N_of_ascii c =? 10)%N
        then splitlines_go false cur s'
        else String.rev (default EmptyString cur)
               :: splitlines_go (N_of_ascii c =? 13)%N None s'
      else splitlines_go false (Some (String c (default EmptyString cur))) s'
  end.

Definition splitlines (s : string) : list string :=
  splitlines_go false None s.

(** ["\n".join(l)] and friends. *)
Fixpoint join (sep : string) (l : list string) : string :=
  match l with
  | [] => EmptyString
  | [x] => x
  | x :: l' => x +:+ sep +:+ join sep l'
  end.

End PyStr.

Import PyStr.

Definition LF : string := String "010"%char EmptyString.

(** ** taxonomy.py *)

(** One row of the reference table as stored in the index: the dictionary
    [{"latin": .., "common": .., "line_parts": ..}]. *)
Record entry := mk_entry {
  entry_latin : string;
  entry_common : string;
  line_parts : list string
}.

Global Instance entry_eq_dec : EqDecision entry.
Proof. solve_decision. Defined.

Record TaxonomyLoader := mk_taxonomy {
  latin_to_row : gmap string entry;
  common_to_row : gmap string entry;
  valid_latin_names : gset string
}.

(** The state set up by [__init__] before [load] runs. *)
Definition empty_taxonomy : TaxonomyLoader :=
  {| latin_to_row := ∅; common_to_row := ∅; valid_latin_names := ∅ |}.

(** [parts[i]], used only once [len(parts) >= 7] is known. *)
Definition part (parts : list string) (i : nat) : string := nth i parts "".

(** The if/elif ladder of [load] that constructs the standard Latin name;
    [None] is its final [continue]. *)
Definition construct_latin (parts : list string) : option string :=
  let genus := part parts 4 in
  let species_epithet := part parts 5 in
  if nonempty species_epithet then Some (lower (genus +:+ " " +:+ species_epithet))
  else if nonempty genus then Some (lower genus)
  else if nonempty (part parts 3) then Some (lower (part parts 3))
  else if nonempty (part parts 2) then Some (lower (part parts 2))
  else if nonempty (part parts 1) then Some (lower (part parts 1))
  else None.

(** The body of the [for line in f] loop. *)
Definition load_line (t : TaxonomyLoader) (raw : string) : TaxonomyLoader :=
  let line := strip raw in
  if negb (nonempty line) then t else
  let parts := split ";" line in
  if length parts <? 7 then t else
  let common_name := part parts 6 in
  match construct_latin parts with
  | None => t
  | Some latin_name =>
      let e := {| entry_latin := latin_name;
                  entry_common := common_name;
                  line_parts := parts |} in
      {| latin_to_row := <[latin_name := e]> (latin_to_row t);
         valid_latin_names := {[latin_name]} ∪ valid_latin_names t;
         common_to_row :=
           if nonempty common_name
           then <[lower common_name := e]> (common_to_row t)
           else common_to_row t |}
  end.

(** [TaxonomyLoader(path)]: the file is the list of its lines as the file
    iterator yields them, or [None] when the path does not exist. *)
Definition load (file : option (list string)) : TaxonomyLoader :=
  match file with
  | None => empty_taxonomy
  | Some lines => foldl load_line empty_taxonomy lines
  end.

Definition get_by_latin (t : TaxonomyLoader) (latin_name : string) : option entry :=
  latin_to_row t !! strip (lower latin_name).

Definition get_by_common (t : TaxonomyLoader) (common_name : string) : option entry :=
  common_to_row t !! strip (lower common_name).

(** The taxonomic levels a match is tagged with, and the two further tags
    that [matcher.py] stores under ['match_level']. *)
Inductive level :=
  | Species | Genus | Family | Order | Class
  | CommonNameFallback | Ambiguous.

Global Instance level_eq_dec : EqDecision level.
Proof. solve_decision. Defined.

(** Truth value of an optional string argument ([None] and [""] are false). *)
Definition given (o : option string) : bool :=
  match o with Some s => nonempty s | None => false end.

(** [if x: x = x.lower().strip()] *)
Definition norm_rank (o : option string) : option string :=
  match o with
  | Some s => if nonempty s then Some (strip (lower s)) else o
  | None => None
  end.

(** [if x: entry = self.get_by_latin(x)] with [entry] left unset otherwise. *)
Definition try_rank (t : TaxonomyLoader) (o : option string) : option entry :=
  match o with
  | Some s => if nonempty s then get_by_latin t s else None
  | None => None
  end.

Definition get_by_hierarchy (t : TaxonomyLoader)
    (tax_class tax_order tax_family tax_genus tax_species : option string)
  : option entry * option level :=
  let tax_class := norm_rank tax_class in
  let tax_order := norm_rank tax_order in
  let tax_family := norm_rank tax_family in
  let tax_genus := norm_rank tax_genus in
  let tax_species := norm_rank tax_species in
  match (if given tax_genus && given tax_species
         then get_by_latin t (default "" tax_genus +:+ " " +:+ default "" tax_species)
         else None) with
  | Some e => (Some e, Some Species)
  | None =>
  match try_rank t tax_genus with
  | Some e => (Some e, Some Genus)
  | None =>
  match try_rank t tax_family with
  | Some e => (Some e, Some Family)
  | None =>
  match try_rank t tax_order with
  | Some e => (Some e, Some Order)
  | None =>
  match try_rank t tax_class with
  | Some e => (Some e, Some Class)
  | None => (None, None)
  end end end end end.

Definition bear_file : list string :=
  ["g1;Mammalia;Carnivora;Ursidae;Ursus;arctos;Brown Bear" +:+ LF;
   "g2;Mammalia;Carnivora;Ursidae;Ursus;;bear genus" +:+ LF].

(** ** matcher.py: the exact-match pass *)

(** A result row: the dictionary built by [match_single_line_exact];
    [match_level] is [None] while the key ['match_level'] is absent. *)
Record result := mk_result {
  latin : string;
  common : string;
  original_latin : string;
  original_common : string;
  raw_input : string;
  match_level : option level
}.

Global Instance result_eq_dec : EqDecision result.
Proof. solve_decision. Defined.

Definition is_likely_latin (text : string) : bool :=
  length (words text) <=? 2.

(** The four local variables of [match_single_line_exact] that end up in
    the returned row: mapped_latin, mapped_common, original_latin,
    original_common. *)
Definition classify (t : TaxonomyLoader) (parts : list string)
  : string * string * string * string :=
  match parts with
  | [token] =>
      match get_by_latin t token with
      | Some row => (entry_latin row, entry_common row, token, "")
      | None =>
          match get_by_common t token with
          | Some row => (entry_latin row, entry_common row, "", token)
          | None => ("", "", "", token)
          end
      end
  | p0 :: p1 :: _ =>
      let row0_l := get_by_latin t p0 in
      let row0_c := get_by_common t p0 in
      let row1_l := get_by_latin t p1 in
      let row1_c := get_by_common t p1 in
      match row0_l, row1_l, row0_c, row1_c with
      | Some r, None, _, _ => (entry_latin r, entry_common r, p0, p1)
      | None, Some r, _, _ => (entry_latin r, entry_common r, p1, p0)
      | _, _, Some r, _ =>
          (entry_latin r, entry_common r,
           if negb (is_likely_latin p1) then "" else p1, p0)
      | _, _, None, Some r =>
          (entry_latin r, entry_common r,
           if is_likely_latin p0 then p0 else "", p1)
      | _, _, None, None => ("", "", p1, p0)
      end
  | [] => ("", "", "", "")
  end.

Definition match_single_line_exact (t : TaxonomyLoader) (line : string) : result :=
  let parts := strip <$> split "," line in
  let '(mapped_latin, mapped_common, orig_latin, orig_common) := classify t parts in
  {| latin := mapped_latin;
     common := mapped_common;
     original_latin := orig_latin;
     original_common := orig_common;
     raw_input := line;
     match_level := None |}.

(** The first pass of [process_input]: the loop over [enumerate(lines)],
    threading [results] and [unknown_lines]. *)
Definition first_pass_step (t : TaxonomyLoader)
    (acc : list result * list (nat * string * result)) (il : nat * string)
  : list result * list (nat * string * result) :=
  let '(results, unknown_lines) := acc in
  let '(i, line) := il in
  let line := strip line in
  if negb (nonempty line) then acc else
  let r := match_single_line_exact t line in
  if nonempty (latin r) then (results ++ [r], unknown_lines)
  else (results ++ [r], unknown_lines ++ [(i, line, r)]).

Definition first_pass (t : TaxonomyLoader) (lines : list string)
  : list result * list (nat * string * result) :=
  foldl (first_pass_step t) ([], []) (imap pair lines).

(** ** Values decoded from the model's JSON answer *)

(** What [json.loads] can return.  The code only ever tests a number for
    truth, so an integer stands for any number of the same truth value. *)
Inductive pyval :=
  | PyNone
  | PyBool (b : bool)
  | PyNum (z : Z)
  | PyStr (s : string)
  | PyList (l : list pyval)
  | PyDict (kvs : list (string * pyval)).

(** A computation that may raise; every exception of the batch pass is
    caught by the same [except Exception], so one constructor is enough. *)
Inductive exc (A : Type) :=
  | Ok (a : A)
  | Raise.
Arguments Ok {A} a.
Arguments Raise {A}.

Definition exc_bind {A B} (m : exc A) (k : A -> exc B) : exc B :=
  match m with Ok a => k a | Raise => Raise end.

Notation "'do' x <- m ; k" := (exc_bind m (fun x => k))
  (at level 10, x name, m at level 100, k at level 200).

Fixpoint exc_map {A B} (f : A -> exc B) (l : list A) : exc (list B) :=
  match l with
  | [] => Ok []
  | a :: l' => do b <- f a; do bs <- exc_map f l'; Ok (b :: bs)
  end.

(** Truth value of a Python value. *)
Definition py_truthy (v : pyval) : bool :=
  match v with
  | PyNone => false
  | PyBool b => b
  | PyNum z => negb (z =? 0)%Z
  | PyStr s => nonempty s
  | PyList l => match l with [] => false | _ => true end
  | PyDict kvs => match kvs with [] => false | _ => true end
  end.

Fixpoint assoc (k : string) (kvs : list (string * pyval)) : option pyval :=
  match kvs with
  | [] => None
  | (k', v) :: kvs' => if decide (k = k') then Some v else assoc k kvs'
  end.

(** [v.get(k, d)]: an [AttributeError] unless [v] is a dictionary. *)
Definition py_get_default (v : pyval) (k : string) (d : pyval) : exc pyval :=
  match v with
  | PyDict kvs => Ok (default d (assoc k kvs))
  | _ => Raise
  end.

(** [v.get(k)] *)
Definition py_get (v : pyval) (k : string) : exc pyval :=
  py_get_default v k PyNone.

(** [for x in v]: the elements of a list, the characters of a string, the
    keys of a dictionary; a [TypeError] otherwise. *)
Fixpoint chars (s : string) : list pyval :=
  match s with
  | EmptyString => []
  | String c s' => PyStr (String c EmptyString) :: chars s'
  end.

Definition py_iter (v : pyval) : exc (list pyval) :=
  match v with
  | PyList l => Ok l
  | PyStr s => Ok (chars s)
  | PyDict kvs => Ok ((fun kv => PyStr (fst kv)) <$> kvs)
  | _ => Raise
  end.

(** [s == v] for a string [s]. *)
Definition str_eq_py (s : string) (v : pyval) : bool :=
  match v with
  | PyStr s' => bool_decide (s = s')
  | _ => false
  end.

(** [' ' in name] *)
Definition space_in (name : pyval) : exc bool :=
  match name with
  | PyStr s => Ok (contains " " s)
  | PyList l => Ok (existsb (str_eq_py " ") l)
  | PyDict kvs => Ok (existsb (fun kv => bool_decide (fst kv = " ")) kvs)
  | _ => Raise
  end.

(** [name.split()] *)
Definition py_words (name : pyval) : exc (list string) :=
  match name with
  | PyStr s => Ok (words s)
  | _ => Raise
  end.

(** [l[i]] on the result of [split()]: an [IndexError] out of range. *)
Definition index (l : list string) (i : nat) : exc pyval :=
  match l !! i with
  | Some s => Ok (PyStr s)
  | None => Raise
  end.

(** One element of the backward-compatibility comprehension:
    [{'genus': name.split()[0] if ' ' in name else name,
      'species': name.split()[1] if ' ' in name and len(name.split()) > 1 else None}] *)
Definition legacy_candidate (name : pyval) : exc pyval :=
  do sp <- space_in name;
  do genus <- (if sp then do ws <- py_words name; index ws 0 else Ok name);
  do species <- (if sp
                 then do ws <- py_words name;
                      if 1 <? length ws then index ws 1 else Ok PyNone
                 else Ok PyNone);
  Ok (PyDict [("genus", genus); ("species", species)]).

(** An argument of [get_by_hierarchy] as the function uses it: a string, or
    a false value, which every test of the function skips; a true value
    that is no string has no [lower]. *)
Definition as_rank (v : pyval) : exc (option string) :=
  match v with
  | PyStr s => Ok (Some s)
  | _ => if py_truthy v then Raise else Ok None
  end.

(** The argument of [get_by_common], which is called on a true value. *)
Definition as_str (v : pyval) : exc string :=
  match v with
  | PyStr s => Ok s
  | _ => Raise
  end.

(** ** matcher.py: the LLM-assisted pass *)

(** [(matched_entry, matched_level)] *)
Definition matched := (option entry * option level)%type.

(** The loop [for candidate in candidates] with its [break]. *)
Fixpoint match_candidates (t : TaxonomyLoader) (candidates : list pyval)
  : exc matched :=
  match candidates with
  | [] => Ok (None, None)
  | candidate :: rest =>
      if negb (py_truthy candidate) then match_candidates t rest else
      do c <- py_get candidate "class";
      do o <- py_get candidate "order";
      do f <- py_get candidate "family";
      do g <- py_get candidate "genus";
      do s <- py_get candidate "species";
      do tax_class <- as_rank c;
      do tax_order <- as_rank o;
      do tax_family <- as_rank f;
      do tax_genus <- as_rank g;
      do tax_species <- as_rank s;
      match get_by_hierarchy t tax_class tax_order tax_family tax_genus tax_species with
      | (Some e, lvl) => Ok (Some e, lvl)
      | (None, _) => match_candidates t rest
      end
  end.

(** [res['latin'] = ..; res['common'] = ..; res['match_level'] = ..] *)
Definition fill (res : result) (e : entry) (lvl : option level) : result :=
  {| latin := entry_latin e;
     common := entry_common e;
     original_latin := original_latin res;
     original_common := original_common res;
     raw_input := raw_input res;
     match_level := lvl |}.

(** The loop [for res in results_list] with its [break]. *)
Fixpoint write_back (inp : pyval) (m : matched) (results_list : list result)
  : list result :=
  match results_list with
  | [] => []
  | res :: rest =>
      if str_eq_py (raw_input res) inp && negb (nonempty (latin res)) then
        match m with
        | (Some e, lvl) => fill res e lvl :: rest
        | (None, _) => res :: rest
        end
      else res :: write_back inp m rest
  end.

(** The body of [for item in data]. *)
Definition process_item (t : TaxonomyLoader) (item : pyval)
    (results_list : list result) : exc (list result) :=
  do inp <- py_get item "input_text";
  do candidates <- py_get_default item "candidates" (PyList []);
  do legacy <- py_get item "candidate_latin_names";
  do candidates <-
    (if negb (py_truthy candidates) && py_truthy legacy
     then do names <- py_iter legacy;
          do cs <- exc_map legacy_candidate names;
          Ok (PyList cs)
     else Ok candidates);
  if negb (py_truthy inp) then Ok results_list else
  do cands <- py_iter candidates;
  do m <- match_candidates t cands;
  do m <-
    (match m with
     | (Some _, _) => Ok m
     | (None, lvl) =>
         do s_common_gemini <- py_get item "suggested_common";
         if py_truthy s_common_gemini then
           do name <- as_str s_common_gemini;
           match get_by_common t name with
           | Some e => Ok (Some e, Some CommonNameFallback)
           | None => Ok (None, lvl)
           end
         else Ok m
     end);
  Ok (write_back inp m results_list).

(** [for item in data] inside the [try]: an exception leaves the rows as
    the items before it made them. *)
Fixpoint process_items (t : TaxonomyLoader) (data : list pyval)
    (results_list : list result) : exc unit * list result :=
  match data with
  | [] => (Ok tt, results_list)
  | item :: data' =>
      match process_item t item results_list with
      | Ok results_list' => process_items t data' results_list'
      | Raise => (Raise, results_list)
      end
  end.

(** The clean-up of the answer before [json.loads]. *)
Definition strip_fences (content : string) : string :=
  if contains "```json" content
  then part (split "```" (part (split "```json" content) 1)) 0
  else if contains "```" content
  then part (split "```" (part (split "```" content) 1)) 0
  else content.

Definition prompt_lines (location : option string)
    (unknown_items : list (nat * string * result)) : list string :=
  ["Map the following biological terms to their standard scientific (Latin) name and Common name."]
  ++ (if given location
      then ["Context: The species are observed in " +:+ default "" location +:+ "."]
      else [])
  ++ ["For each term, provide multiple candidate identifications in order of likelihood, as different taxonomies may use different names.";
      "For each candidate, include the full taxonomic hierarchy (class, order, family, genus, species).";
      "Return the result as a JSON list of objects with keys:";
      "  - 'input_text': the original input";
      "  - 'candidates': array of candidate objects, each with:";
      "      - 'class': taxonomic class";
      "      - 'order': taxonomic order";
      "      - 'family': taxonomic family";
      "      - 'genus': taxonomic genus";
      "      - 'species': species epithet (not the full binomial, just the species part)";
      "  - 'suggested_common': the most common English name";
      "If you cannot identify a term, set candidates to an empty array.";
      "Items:"]
  ++ ((fun it => "- " +:+ snd (fst it)) <$> unknown_items).

(** A generative model: [generate_content(prompt).text], or [None] when the
    call or the access to the text raises. *)
Definition llm := string -> option string.

Record Matcher := mk_matcher {
  taxonomy : TaxonomyLoader;
  model : option llm
}.

Section Pipeline.

(** The two library functions the pass relies on: [json.loads] ([None]
    when it raises) and the constructor [genai.GenerativeModel] applied
    to the caller's key ([None] when it raises). *)
Variable json_loads : string -> option pyval.
Variable GenerativeModel : string -> option llm.

(** The body of the [try] block. *)
Definition try_block (t : TaxonomyLoader) (model_to_use : llm)
    (prompt : string) (results_list : list result) : exc unit * list result :=
  match model_to_use prompt with
  | None => (Raise, results_list)
  | Some content =>
      match json_loads (strip_fences content) with
      | None => (Raise, results_list)
      | Some data =>
          match py_iter data with
          | Raise => (Raise, results_list)
          | Ok items => process_items t items results_list
          end
      end
  end.

Definition batch_process_with_gemini (m : Matcher)
    (unknown_items : list (nat * string * result))
    (results_list : list result)
    (location user_api_key : option string) : list result :=
  let model_to_use :=
    if given user_api_key then
      match GenerativeModel (default "" user_api_key) with
      | Some temp_genai => Some temp_genai
      | None => model m
      end
    else model m in
  match model_to_use with
  | None => results_list
  | Some g =>
      let prompt := join LF (prompt_lines location unknown_items) in
      (* try: ... except Exception: print *)
      snd (try_block (taxonomy m) g prompt results_list)
  end.

End Pipeline.

(** ** matcher.py: the ambiguity pass *)

(** [match_level and match_level in ['genus', 'family', 'order', 'class']] *)
Definition is_higher (l : option level) : bool :=
  match l with
  | Some Genus | Some Family | Some Order | Some Class => true
  | _ => false
  end.

(** The first loop: [higher_level_matches], latin name -> row indices. *)
Definition group_step (acc : gmap string (list nat)) (ir : nat * result)
  : gmap string (list nat) :=
  let '(i, r) := ir in
  if is_higher (match_level r) && nonempty (latin r)
  then <[latin r := default [] (acc !! latin r) ++ [i]]> acc
  else acc.

Definition higher_level_matches (results : list result) : gmap string (list nat) :=
  foldl group_step ∅ (imap pair results).

(** The three assignments that retract a row. *)
Definition retract (r : result) : result :=
  {| latin := "";
     common := "";
     original_latin := original_latin r;
     original_common := original_common r;
     raw_input := raw_input r;
     match_level := Some Ambiguous |}.

(** [for idx in indices: results[idx][..] = ..] *)
Definition retract_all (indices : list nat) (results : list result) : list result :=
  foldl (fun rs idx => alter retract idx rs) results indices.

Definition retract_group (results : list result) (g : string * list nat)
  : list result :=
  if 1 <? length (snd g) then retract_all (snd g) results else results.

Definition resolve_ambiguous_matches (results : list result) : list result :=
  foldl retract_group results (map_to_list (higher_level_matches results)).

(** ** matcher.py: the pipeline *)

Section ProcessInput.

Variable json_loads : string -> option pyval.
Variable GenerativeModel : string -> option llm.

(** The first two passes: [results] as it stands when the third pass is
    called. *)
Definition results_before_pass3 (m : Matcher) (input_text : string)
    (location user_api_key : option string) : list result :=
  let lines := splitlines input_text in
  let '(results, unknown_lines) := first_pass (taxonomy m) lines in
  if match unknown_lines with [] => false | _ => true end
     && (match model m with Some _ => true | None => false end
         || given user_api_key)
  then batch_process_with_gemini json_loads GenerativeModel
         m unknown_lines results location user_api_key
  else results.

Definition process_input (m : Matcher) (input_text : string)
    (location user_api_key : option string) : list result :=
  resolve_ambiguous_matches
    (results_before_pass3 m input_text location user_api_key).

End ProcessInput.

(** ** Predicates and data used in the statements *)

(** The normal form under which both indexes are queried. *)
Definition normalize (s : string) : string := strip (lower s).

(** What [load] records about the row an entry was built from. *)
Definition loaded_from (e : entry) : Prop :=
  7 <= length (line_parts e)
  /\ construct_latin (line_parts e) = Some (entry_latin e)
  /\ entry_common e = part (line_parts e) 6.

Definition index_ok (t : TaxonomyLoader) : Prop :=
  (forall k e, latin_to_row t !! k = Some e ->
     loaded_from e /\ k = entry_latin e)
  /\ (forall k e, common_to_row t !! k = Some e ->
        loaded_from e /\ k = lower (entry_common e) /\ entry_common e <> "").

(** The specification's description of the Latin name of a row. *)
Definition spec_latin (cls order family genus species : string) : option string :=
  if nonempty species then Some (lower (genus +:+ " " +:+ species))
  else lower <$> List.find nonempty [genus; family; order; cls].

(** The keys of both mappings are in normal form. *)
Definition keys_normalized (t : TaxonomyLoader) : Prop :=
  forall k, is_Some (latin_to_row t !! k) \/ is_Some (common_to_row t !! k) ->
            normalize k = k.

(** A reference file whose common-name field starts with a space. *)
Definition spaced_file : list string :=
  ["g1;Mammalia;Carnivora;Ursidae;Ursus;arctos; Brown Bear" +:+ LF].

(** Rank order, from coarse to fine. *)
Definition rank (l : level) : nat :=
  match l with
  | Class => 1 | Order => 2 | Family => 3 | Genus => 4 | Species => 5
  | CommonNameFallback | Ambiguous => 0
  end.

(** The finest rank among the fields supplied. *)
Definition finest_supplied (tax_class tax_order tax_family tax_genus tax_species : option string)
  : option level :=
  if given tax_species then Some Species
  else if given tax_genus then Some Genus
  else if given tax_family then Some Family
  else if given tax_order then Some Order
  else if given tax_class then Some Class
  else None.

(** The result is never coarser than the finest rank supplied. *)
Definition never_coarser (t : TaxonomyLoader)
    (tax_class tax_order tax_family tax_genus tax_species : option string) : Prop :=
  forall e l fin,
    get_by_hierarchy t tax_class tax_order tax_family tax_genus tax_species
      = (Some e, Some l) ->
    finest_supplied tax_class tax_order tax_family tax_genus tax_species = Some fin ->
    rank fin <= rank l.

(** The lookup [get_by_hierarchy] makes at each level, on the normalized
    fields. *)
Definition hit (t : TaxonomyLoader)
    (tax_class tax_order tax_family tax_genus tax_species : option string)
    (l : level) : option entry :=
  match l with
  | Species =>
      if given (norm_rank tax_genus) && given (norm_rank tax_species)
      then get_by_latin t (default "" (norm_rank tax_genus) +:+ " "
                           +:+ default "" (norm_rank tax_species))
      else None
  | Genus => try_rank t (norm_rank tax_genus)
  | Family => try_rank t (norm_rank tax_family)
  | Order => try_rank t (norm_rank tax_order)
  | Class => try_rank t (norm_rank tax_class)
  | CommonNameFallback | Ambiguous => None
  end.

Definition brown_bear_file : list string :=
  ["g1;Mammalia;Carnivora;Ursidae;Ursus;arctos;Brown Bear"].

Definition brown_bear_row : result :=
  {| latin := "ursus arctos";
     common := "Brown Bear";
     original_latin := "Ursus arctos";
     original_common := "Brown Bear";
     raw_input := "Ursus arctos, Brown Bear";
     match_level := None |}.

(** [e] is a value of one of the two mappings. *)
Definition from_index (t : TaxonomyLoader) (e : entry) : Prop :=
  exists k, latin_to_row t !! k = Some e \/ common_to_row t !! k = Some e.

(** A row after the pass, against the row before it: untouched, or
    unresolved before and filled from an entry of the index. *)
Definition updated (t : TaxonomyLoader) (r r' : result) : Prop :=
  r' = r
  \/ (latin r = "" /\ exists e lvl, from_index t e /\ r' = fill r e lvl).

(** The row takes part in the grouping, under the key [k]. *)
Definition in_group (k : string) (r : result) : bool :=
  is_higher (match_level r) && nonempty (latin r) && bool_decide (latin r = k).

Definition members (k : string) (irs : list (nat * result)) : list nat :=
  fst <$> List.filter (fun ir => in_group k (snd ir)) irs.

(** The rows a list of groups marks for retraction. *)
Definition marked (gs : list (string * list nat)) (i : nat) : bool :=
  existsb (fun g => (1 <? length (snd g)) && bool_decide (i ∈ snd g)) gs.

Definition retract_if (b : bool) (r : result) : result :=
  if b then retract r else r.

(** Pass 3 leaves a row or retracts it. *)
Definition retracted (r r' : result) : Prop := r' = r \/ r' = retract r.

(** The spec's example: two rows resolved to genus vulpes and a third to the
    species vulpes vulpes. *)
Definition fox_rows : list result :=
  [mk_result "vulpes" "fox genus" "" "kit fox" "kit fox" (Some Genus);
   mk_result "vulpes vulpes" "Red Fox" "" "renard" "renard" (Some Species);
   mk_result "vulpes" "fox genus" "" "swift fox" "swift fox" (Some Genus);
   mk_result "vulpes" "fox genus" "vulpes" "" "vulpes" None].

(** The invariant of the canonical pair of a row: both fields empty, or
    both taken from one entry of the index. *)
Definition canonical (t : TaxonomyLoader) (r : result) : Prop :=
  (latin r = "" /\ common r = "")
  \/ exists e, from_index t e /\ latin r = entry_latin e /\ common r = entry_common e.

Definition fox_file : list string :=
  ["g1;Mammalia;Carnivora;Canidae;Vulpes;vulpes;Red Fox";
   "g2;Mammalia;Carnivora;Canidae;Vulpes;;fox genus";
   "g3;Mammalia;Carnivora;Ursidae;Ursus;arctos;Brown Bear"].

Definition candidate (genus species : string) : pyval :=
  PyDict [("class", PyStr "Mammalia"); ("order", PyStr "Carnivora");
          ("family", PyStr "Canidae"); ("genus", PyStr genus);
          ("species", PyStr species)].

(** A decoded answer: two inputs placed in genus Vulpes with species the
    table does not have, one placed at vulpes vulpes, one found by its
    suggested common name, and then an element that is no object. *)
Definition fox_answer : pyval :=
  PyList
    [PyDict [("input_text", PyStr "kit fox");
             ("candidates", PyList [candidate "Vulpes" "macrotis"])];
     PyDict [("input_text", PyStr "swift fox");
             ("candidates", PyList [candidate "Vulpes" "velox"])];
     PyDict [("input_text", PyStr "renard");
             ("candidates", PyList [candidate "Vulpes" "Vulpes"])];
     PyDict [("input_text", PyStr "grizzly");
             ("candidates", PyList []);
             ("suggested_common", PyStr "brown bear")];
     PyNum 3;
     PyDict [("input_text", PyStr "silvertip");
             ("suggested_common", PyStr "brown bear")]].

Definition fox_loads : string -> option pyval := fun _ => Some fox_answer.
Definition no_user_model : string -> option llm := fun _ => None.
Definition fox_matcher : Matcher :=
  mk_matcher (load (Some fox_file)) (Some (fun _ => Some "[]")).

Definition fox_input : string :=
  join LF ["kit fox"; "   "; "swift fox"; "renard"; "Ursus arctos, bear";
           "grizzly"; "silvertip"].

Definition fox_pass1 : list result :=
  fst (first_pass (taxonomy fox_matcher) (splitlines fox_input)).

(** The lookup that gives a level: a rank comes from the Latin index, the
    fallback from the common-name index. *)
Definition found_by (t : TaxonomyLoader) (lv : level) (e : entry) : Prop :=
  (rank lv <> 0 /\ exists s, get_by_latin t s = Some e)
  \/ (lv = CommonNameFallback /\ exists s, get_by_common t s = Some e).

(** [updated], with the level that pass 2 stores. *)
Definition updated_lv (t : TaxonomyLoader) (r r' : result) : Prop :=
  r' = r
  \/ (latin r = "" /\ exists e lv, found_by t lv e /\ r' = fill r e (Some lv)).

(** What the pipeline can make of the row the exact parser returns for a
    line: the row itself, the row filled by pass 2, or either retracted. *)
Definition row_of_line (t : TaxonomyLoader) (line : string) (r : result) : Prop :=
  let r0 := match_single_line_exact t line in
  r = r0
  \/ (latin r0 = "" /\ exists e lv, found_by t lv e /\ r = fill r0 e (Some lv))
  \/ (latin r0 = "" /\ exists e lv, found_by t lv e
      /\ is_higher (Some lv) = true /\ r = retract (fill r0 e (Some lv))).

(** The Latin key under which [load] stores a line, if it stores it. *)
Definition row_key (raw : string) : option string :=
  let line := strip raw in
  if negb (nonempty line) then None
  else if length (split ";" line) <? 7 then None
  else construct_latin (split ";" line).

(** The entry [load] builds from a line. *)
Definition row_entry (raw : string) (latin_name : string) : entry :=
  let parts := split ";" (strip raw) in
  {| entry_latin := latin_name;
     entry_common := part parts 6;
     line_parts := parts |}.

(** The key [get_by_hierarchy] looks up at each rank. *)
Definition rank_key (tax_class tax_order tax_family tax_genus tax_species : option string)
    (lv : level) : string :=
  match lv with
  | Species => normalize (default "" tax_genus) +:+ " "
               +:+ normalize (default "" tax_species)
  | Genus => normalize (default "" tax_genus)
  | Family => normalize (default "" tax_family)
  | Order => normalize (default "" tax_order)
  | Class => normalize (default "" tax_class)
  | CommonNameFallback | Ambiguous => ""
  end.

(** ** matcher.py as a script, the API key, and app.py *)

(** Some character of [s] satisfies [p]. *)
Fixpoint any_char (p : ascii -> bool) (s : string) : bool :=
  match s with
  | EmptyString => false
  | String c s' => p c || any_char p s'
  end.

(** [[q.strip() for q in args.query.split(';') if q.strip()]] *)
Definition cli_queries (query : string) : list string :=
  List.filter nonempty (strip <$> split ";" query).

(** ['\n'.join(queries)] *)
Definition cli_input_text (query : string) : string :=
  join LF (cli_queries query).

(** [s[:n]] *)
Fixpoint prefix (n : nat) (s : string) : string :=
  match n, s with
  | S k, String c s' => String c (prefix k s')
  | _, _ => EmptyString
  end.

(** [x[:28] + '..' if len(x) > 30 else x], the three display columns of the
    normal mode. *)
Definition display (x : string) : string :=
  if 30 <? String.length x then prefix 28 x +:+ ".." else x.

(** The module-level [API_KEY]: the environment variable, or failing that
    the trimmed content of gemini-key.txt.  [key_file] is [None] when the
    file does not exist and [Some None] when reading it raises. *)
Definition resolve_api_key (env : option string)
    (key_file : option (option string)) : option string :=
  if given env then env
  else match key_file with
       | Some (Some content) => Some (strip content)
       | Some None => env
       | None => env
       end.

(** [Matcher(taxonomy_loader)]: [constructed] is what
    [genai.GenerativeModel('gemini-2.5-flash')] returns, [None] when it
    raises. *)
Definition new_matcher (api_key : option string) (constructed : option llm)
    (taxonomy_loader : TaxonomyLoader) : Matcher :=
  {| taxonomy := taxonomy_loader;
     model := if given api_key then constructed else None |}.

Definition is_available (m : Matcher) : bool :=
  match model m with Some _ => true | None => false end.

(** [request.form.get(k, d)] *)
Fixpoint form_get (form : list (string * string)) (k d : string) : string :=
  match form with
  | [] => d
  | (k', v) :: form' => if decide (k = k') then v else form_get form' k d
  end.

Section App.

Variable json_loads : string -> option pyval.
Variable GenerativeModel : string -> option llm.

(** What [csv.writer(output).writerow(row)] appends to the output. *)
Variable writerow : list string -> string.

Definition csv_row (row : result) : string :=
  writerow [latin row; common row; original_latin row; original_common row].

Definition csv_text (results : list result) : string :=
  writerow ["latin"; "common"; "original_latin"; "original_common"]
  +:+ foldr (fun row acc => csv_row row +:+ acc) "" results.

(** The handler of [/process]; the result is the body of the response. *)
Definition process (m : Matcher) (form : list (string * string)) : string :=
  let input_text := form_get form "input_text" "" in
  let location := form_get form "location" "" in
  let user_api_key := strip (form_get form "user_api_key" "") in
  let results := process_input json_loads GenerativeModel m input_text
                   (Some location) (Some user_api_key) in
  csv_text results.

(** The normal mode of the script. *)
Definition cli_results (m : Matcher) (query : string) (location : option string)
  : list result :=
  process_input json_loads GenerativeModel m (cli_input_text query) location None.

End App.

(** * Properties *)

(** ** The embedding on concrete inputs *)

Example lower_ex : lower "  Ursus Arctos " = "  ursus arctos ".
Proof. reflexivity. Qed.
Example strip_ex : strip "  Ursus Arctos " = "Ursus Arctos".
Proof. reflexivity. Qed.
Example split_ex : split ";" "a;;b;" = ["a"; ""; "b"; ""].
Proof. reflexivity. Qed.
Example split_ex2 : split "```" "x```json[1]```y" = ["x"; "json[1]"; "y"].
Proof. reflexivity. Qed.
Example split_empty : split "," "" = [""].
Proof. reflexivity. Qed.
Example words_ex : words "  brown   bear " = ["brown"; "bear"].
Proof. reflexivity. Qed.

Example splitlines_ex :
  splitlines ("a" +:+ LF +:+ LF +:+ " b " +:+ String "013"%char LF +:+ "c" +:+ LF)
  = ["a"; ""; " b "; "c"].
Proof. reflexivity. Qed.
Example splitlines_empty : splitlines "" = [] /\ splitlines LF = [""].
Proof. split; reflexivity. Qed.

Example load_ex :
  get_by_latin (load (Some bear_file)) "  Ursus Arctos "
  = Some (mk_entry "ursus arctos" "Brown Bear"
            ["g1"; "Mammalia"; "Carnivora"; "Ursidae"; "Ursus"; "arctos"; "Brown Bear"]).
Proof. vm_compute. reflexivity. Qed.

Example exact_ex :
  match_single_line_exact (load (Some bear_file)) "Ursus arctos, Brown Bear"
  = mk_result "ursus arctos" "Brown Bear" "Ursus arctos" "Brown Bear"
      "Ursus arctos, Brown Bear" None.
Proof. vm_compute. reflexivity. Qed.

Example exact_unknown :
  match_single_line_exact (load (Some bear_file)) "silvertip"
  = mk_result "" "" "" "silvertip" "silvertip" None.
Proof. vm_compute. reflexivity. Qed.

Example legacy_ex :
  legacy_candidate (PyStr "Ursus arctos")
  = Ok (PyDict [("genus", PyStr "Ursus"); ("species", PyStr "arctos")])
  /\ legacy_candidate (PyStr "Ursus")
  = Ok (PyDict [("genus", PyStr "Ursus"); ("species", PyNone)])
  /\ legacy_candidate (PyStr " ") = Raise
  /\ legacy_candidate (PyNum 3) = Raise.
Proof. repeat split; reflexivity. Qed.

(** ** Strings: lowering and trimming *)

Section StringFacts.

Lemma lower_char_idem c : lower_char (lower_char c) = lower_char c.
Proof. destruct c as [[] [] [] [] [] [] [] []]; reflexivity. Qed.

Lemma isspace_lower_char c : isspace (lower_char c) = isspace c.
Proof. destruct c as [[] [] [] [] [] [] [] []]; reflexivity. Qed.

Lemma lower_idem s : lower (lower s) = lower s.
Proof. induction s as [|c s IH]; simpl; [done|]. by rewrite lower_char_idem, IH. Qed.

Lemma nonempty_lower s : nonempty (lower s) = nonempty s.
Proof. by destruct s. Qed.

Lemma nonempty_false s : nonempty s = false <-> s = "".
Proof. destruct s; simpl; split; congruence. Qed.

Lemma nonempty_true s : nonempty s = true <-> s <> "".
Proof. destruct s; simpl; split; congruence. Qed.

Lemma lower_app s1 s2 : lower (s1 +:+ s2) = lower s1 +:+ lower s2.
Proof. induction s1 as [|c s1 IH]; simpl; [done|]. unfold String.app in *. simpl. by rewrite IH. Qed.

Lemma lstrip_lower s : lstrip (lower s) = lower (lstrip s).
Proof.
  induction s as [|c s IH]; simpl; [done|].
  rewrite isspace_lower_char. by destruct (isspace c).
Qed.

Lemma rstrip_lower s : rstrip (lower s) = lower (rstrip s).
Proof.
  induction s as [|c s IH]; simpl; [done|].
  rewrite isspace_lower_char, IH, nonempty_lower.
  by destruct (isspace c && negb (nonempty (rstrip s))).
Qed.

Lemma strip_lower s : strip (lower s) = lower (strip s).
Proof. unfold strip. by rewrite rstrip_lower, lstrip_lower. Qed.

Lemma lstrip_idem s : lstrip (lstrip s) = lstrip s.
Proof.
  induction s as [|c s IH]; simpl; [done|].
  destruct (isspace c) eqn:E; [done|]. simpl. by rewrite E.
Qed.

Lemma rstrip_idem s : rstrip (rstrip s) = rstrip s.
Proof.
  induction s as [|c s IH]; simpl; [done|].
  destruct (isspace c && negb (nonempty (rstrip s))) eqn:E; [done|].
  simpl. by rewrite IH, E.
Qed.

Lemma lstrip_rstrip s : lstrip (rstrip s) = rstrip (lstrip s).
Proof.
  induction s as [|c s IH]; simpl; [done|].
  destruct (isspace c) eqn:E; simpl.
  - destruct (nonempty (rstrip s)) eqn:N; simpl.
    + by rewrite E.
    + apply nonempty_false in N. rewrite <- IH, N. done.
  - by rewrite E.
Qed.

Lemma strip_idem s : strip (strip s) = strip s.
Proof.
  unfold strip.
  rewrite (lstrip_rstrip (lstrip (rstrip s))), lstrip_idem.
  by rewrite <- lstrip_rstrip, rstrip_idem.
Qed.

End StringFacts.

Lemma normalize_idem s : normalize (normalize s) = normalize s.
Proof.
  unfold normalize.
  rewrite (strip_lower s), lower_idem, (strip_lower (strip s)).
  by rewrite strip_idem.
Qed.

Lemma normalize_fixed s : lower s = s -> strip s = s -> normalize s = s.
Proof. unfold normalize. by intros -> ->. Qed.

(** C6. Latin and common lookups do not see case or surrounding white space:
    looking a string up and looking its lowercased, trimmed form up give the
    same result in every index (lowering and trimming commute, so the form
    is the same in either order); so ["  Ursus Arctos "] and ["ursus arctos"]
    find the same entry. *)
Theorem lookup_case_whitespace_insensitive (t : TaxonomyLoader) (s : string) :
  get_by_latin t s = get_by_latin t (normalize s)
  /\ get_by_common t s = get_by_common t (normalize s)
  /\ normalize s = lower (strip s)
  /\ get_by_latin t "  Ursus Arctos " = get_by_latin t "ursus arctos"
  /\ get_by_common t "  Ursus Arctos " = get_by_common t "ursus arctos".
Proof.
  unfold get_by_latin, get_by_common.
  fold (normalize s) (normalize (normalize s)).
  rewrite normalize_idem. repeat split; try done.
  unfold normalize. apply strip_lower.
Qed.

(** ** The loaded index *)

(** Induction over the lines of the reference file. *)
Lemma load_ind (P : TaxonomyLoader -> Prop) :
  P empty_taxonomy ->
  (forall t raw, P t -> P (load_line t raw)) ->
  forall file, P (load file).
Proof.
  intros H0 Hstep [lines|]; simpl; [|done].
  induction lines as [|raw lines IH] using rev_ind; simpl; [done|].
  rewrite foldl_app. simpl. by apply Hstep.
Qed.

Lemma load_line_ok t raw : index_ok t -> index_ok (load_line t raw).
Proof.
  intros [HL HC]. unfold load_line.
  destruct (nonempty (strip raw)); simpl; [|done].
  destruct (length (split ";" (strip raw)) <? 7) eqn:Hlen; [done|].
  apply Nat.ltb_ge in Hlen.
  destruct (construct_latin (split ";" (strip raw))) as [latin_name|] eqn:Hc; [|done].
  set (e := mk_entry _ _ _).
  assert (He : loaded_from e) by done.
  split; simpl.
  - intros k e' [[<- <-]|[_ H]]%lookup_insert_Some; [done|]. by apply HL.
  - destruct (nonempty (part (split ";" (strip raw)) 6)) eqn:Hn; [|done].
    intros k e' [[<- <-]|[_ H]]%lookup_insert_Some; [|by apply HC].
    repeat split; try done. by apply nonempty_true.
Qed.

Lemma load_ok file : index_ok (load file).
Proof.
  apply load_ind; [|apply load_line_ok].
  split; intros k e; simpl; by rewrite lookup_empty.
Qed.

Lemma construct_latin_nonempty parts l : construct_latin parts = Some l -> l <> "".
Proof.
  unfold construct_latin.
  repeat (case_match; [intros [= <-]; apply nonempty_true;
                       rewrite ?lower_app, ?nonempty_lower; try done|]);
    [|done].
  by destruct (lower (part parts 4)).
Qed.

Lemma construct_latin_spec parts :
  construct_latin parts
  = spec_latin (part parts 1) (part parts 2) (part parts 3) (part parts 4) (part parts 5).
Proof.
  unfold construct_latin, spec_latin. simpl.
  repeat (case_match; [done|]). done.
Qed.

(** C4. Every entry of the loaded index was built from a row of at least
    seven fields; with a non-empty species field its latin is
    ["<genus> <species>"] lowercased, with an empty one it is the first
    non-empty of genus, family, order, class, lowercased; the latin of a
    loaded entry is never empty; and a line whose five rank fields are all
    empty leaves the index as it was. *)
Theorem loaded_latin_construction (file : option (list string)) (k : string) (e : entry)
    (Hin : latin_to_row (load file) !! k = Some e
           \/ common_to_row (load file) !! k = Some e) :
  let parts := line_parts e in
  7 <= length parts
  /\ (part parts 5 <> "" ->
      entry_latin e = lower (part parts 4 +:+ " " +:+ part parts 5))
  /\ (part parts 5 = "" ->
      exists x, List.find nonempty
                  [part parts 4; part parts 3; part parts 2; part parts 1] = Some x
                /\ entry_latin e = lower x)
  /\ entry_latin e <> ""
  /\ (forall t raw,
        let fields := split ";" (strip raw) in
        part fields 1 = "" -> part fields 2 = "" -> part fields 3 = "" ->
        part fields 4 = "" -> part fields 5 = "" ->
        load_line t raw = t).
Proof.
  destruct (load_ok file) as [HL HC].
  assert (He : loaded_from e).
  { destruct Hin as [H|H]; [by apply HL in H as [? _]|by apply HC in H as [? _]]. }
  destruct He as (Hlen & Hc & _). simpl.
  split; [done|].
  pose proof (construct_latin_nonempty _ _ Hc) as Hne.
  rewrite construct_latin_spec in Hc. unfold spec_latin in Hc.
  repeat split.
  - intros Hs%nonempty_true. rewrite Hs in Hc. by injection Hc.
  - intros Hs. rewrite Hs in Hc. simpl in Hc.
    apply fmap_Some in Hc as (x & Hx & ->). by exists x.
  - done.
  - intros t raw H1 H2 H3 H4 H5. unfold load_line.
    destruct (negb (nonempty (strip raw))); [done|].
    destruct (length (split ";" (strip raw)) <? 7); [done|].
    unfold construct_latin. by rewrite H1, H2, H3, H4, H5.
Qed.

Lemma loaded_latin_construction_witness :
  let e := mk_entry "ursus arctos" "Brown Bear"
             ["g1"; "Mammalia"; "Carnivora"; "Ursidae"; "Ursus"; "arctos"; "Brown Bear"] in
  latin_to_row (load (Some bear_file)) !! "ursus arctos" = Some e
  /\ entry_latin e = lower ("Ursus" +:+ " " +:+ "arctos").
Proof.
  assert (H : latin_to_row (load (Some bear_file)) !! "ursus arctos"
              = Some (mk_entry "ursus arctos" "Brown Bear"
                  ["g1"; "Mammalia"; "Carnivora"; "Ursidae"; "Ursus"; "arctos"; "Brown Bear"])).
  { vm_compute. reflexivity. }
  split; [exact H|].
  destruct (loaded_latin_construction (Some bear_file) _ _ (or_introl H))
    as (_ & Hs & _).
  apply Hs. discriminate.
Defined.

(** ** The keys of the index *)

(** C7, as stated, fails: [load] trims the line, not its fields, so a field
    written with a leading space yields a key that is not trimmed, and the
    entry under it is out of reach of [get_by_common]. *)
Lemma keys_normalized_fails :
  is_Some (common_to_row (load (Some spaced_file)) !! " brown bear")
  /\ normalize " brown bear" <> " brown bear"
  /\ get_by_common (load (Some spaced_file)) " Brown Bear" = None
  /\ ~ keys_normalized (load (Some spaced_file)).
Proof.
  assert (H : is_Some (common_to_row (load (Some spaced_file)) !! " brown bear")).
  { vm_compute. eexists. reflexivity. }
  split; [exact H|]. split; [discriminate|]. split; [vm_compute; reflexivity|].
  intros Hk. specialize (Hk " brown bear" (or_intror H)). discriminate.
Qed.

(** Trimming a compound of two trimmed, non-empty parts changes nothing. *)
Lemma lstrip_app_fixed a b : a <> "" -> lstrip a = a -> lstrip (a +:+ b) = a +:+ b.
Proof.
  destruct a as [|c a]; [done|]. intros _. unfold String.app. simpl.
  destruct (isspace c) eqn:E; [|done].
  intros H. exfalso.
  assert (L : forall u, String.length (lstrip u) <= String.length u).
  { clear. induction u as [|x u IH]; simpl; [lia|].
    destruct (isspace x); simpl; lia. }
  specialize (L a). rewrite H in L. simpl in L. lia.
Qed.

Lemma rstrip_app_fixed a b : b <> "" -> rstrip b = b -> rstrip (a +:+ b) = a +:+ b.
Proof.
  intros Hb Hr. induction a as [|c a IH]; [exact Hr|].
  change (String c a +:+ b) with (String c (a +:+ b)). simpl. rewrite IH.
  assert (Hn : nonempty (a +:+ b) = true).
  { destruct a; [by apply nonempty_true|done]. }
  rewrite Hn. by rewrite andb_false_r.
Qed.

Lemma rstrip_strip s : rstrip (strip s) = strip s.
Proof. unfold strip. by rewrite <- lstrip_rstrip, rstrip_idem. Qed.

Lemma lstrip_strip s : lstrip (strip s) = strip s.
Proof. unfold strip. by rewrite lstrip_idem. Qed.

Lemma strip_sides s : strip s = s -> lstrip s = s /\ rstrip s = s.
Proof.
  intros H. split.
  - rewrite <- H. apply lstrip_strip.
  - rewrite <- H. apply rstrip_strip.
Qed.

Lemma strip_app_fixed a b :
  a <> "" -> b <> "" -> lstrip a = a -> rstrip b = b -> strip (a +:+ b) = a +:+ b.
Proof.
  intros Ha Hb Hl Hr. unfold strip.
  rewrite rstrip_app_fixed by done. by apply lstrip_app_fixed.
Qed.

(** A Latin name built from trimmed rank fields is trimmed, provided a
    species comes with a genus. *)
Lemma construct_latin_trimmed parts l :
  construct_latin parts = Some l ->
  (forall i, 1 <= i <= 5 -> strip (part parts i) = part parts i) ->
  (part parts 5 <> "" -> part parts 4 <> "") ->
  strip l = l.
Proof.
  intros Hc Hf Hg. revert Hc. unfold construct_latin. cbv zeta.
  destruct (nonempty (part parts 5)) eqn:H5.
  - intros [= <-]. apply nonempty_true in H5.
    rewrite strip_lower. f_equal.
    destruct (strip_sides _ (Hf 4 ltac:(lia))) as [Hl4 _].
    destruct (strip_sides _ (Hf 5 ltac:(lia))) as [_ Hr5].
    apply strip_app_fixed; [by apply Hg|done|done|].
    change (" " +:+ part parts 5) with (String " " (part parts 5)).
    simpl. rewrite Hr5. apply nonempty_true in H5. by rewrite H5.
  - repeat (case_match;
            [intros [= <-]; rewrite strip_lower; f_equal; apply Hf; lia|]).
    done.
Qed.

Lemma construct_latin_lowered parts l : construct_latin parts = Some l -> lower l = l.
Proof.
  unfold construct_latin.
  repeat (case_match; [intros [= <-]; apply lower_idem|]). done.
Qed.

(** C7, amended. Every key of either mapping equals its own lowercased
    form.  [load] trims the line, not its fields, so a key need not be
    trimmed; it is trimmed whenever the fields it is built from are: a
    Latin key (the name constructed from the row) when the five rank
    fields are trimmed and a species comes with a genus, a common-name key
    (the lowercased common name) when the common name is trimmed.  A key is
    the normal form of some query exactly when it is trimmed, and the
    entry stored under a trimmed key is found by the normalized lookup of
    that key. *)
Theorem index_keys_lowercased (file : option (list string)) (k : string) (e : entry)
    (Hin : latin_to_row (load file) !! k = Some e
           \/ common_to_row (load file) !! k = Some e) :
  lower k = k
  /\ (strip k = k <-> exists s, normalize s = k)
  /\ (strip k = k ->
      (latin_to_row (load file) !! k = Some e -> get_by_latin (load file) k = Some e)
      /\ (common_to_row (load file) !! k = Some e -> get_by_common (load file) k = Some e))
  /\ (latin_to_row (load file) !! k = Some e ->
      construct_latin (line_parts e) = Some k
      /\ ((forall i, 1 <= i <= 5 ->
             strip (part (line_parts e) i) = part (line_parts e) i) ->
          (part (line_parts e) 5 <> "" -> part (line_parts e) 4 <> "") ->
          strip k = k))
  /\ (common_to_row (load file) !! k = Some e ->
      k = lower (part (line_parts e) 6)
      /\ (strip (part (line_parts e) 6) = part (line_parts e) 6 -> strip k = k)).
Proof.
  destruct (load_ok file) as [HL HC].
  assert (Hlow : lower k = k).
  { destruct Hin as [H|H].
    - apply HL in H as [(_ & Hc & _) ->]. by eapply construct_latin_lowered.
    - apply HC in H as (_ & -> & _). apply lower_idem. }
  split; [done|]. split; [split|split; [|split]].
  - intros Hs. exists k. by apply normalize_fixed.
  - intros [s <-]. unfold normalize. apply strip_idem.
  - intros Hs. unfold get_by_latin, get_by_common. by rewrite Hlow, Hs.
  - intros H. apply HL in H as [(_ & Hc & _) ->]. split; [done|].
    intros Hf Hg. by eapply construct_latin_trimmed.
  - intros H. apply HC in H as ((_ & _ & Hcm) & -> & _). rewrite Hcm.
    split; [done|]. intros Hs. by rewrite strip_lower, Hs.
Qed.

Lemma index_keys_lowercased_witness :
  let e := mk_entry "ursus arctos" " Brown Bear"
             ["g1"; "Mammalia"; "Carnivora"; "Ursidae"; "Ursus"; "arctos"; " Brown Bear"] in
  common_to_row (load (Some spaced_file)) !! " brown bear" = Some e
  /\ lower " brown bear" = " brown bear"
  /\ (strip " brown bear" = " brown bear" <-> exists s, normalize s = " brown bear")
  /\ strip "ursus arctos" = "ursus arctos".
Proof.
  assert (H : common_to_row (load (Some spaced_file)) !! " brown bear"
              = Some (mk_entry "ursus arctos" " Brown Bear"
                  ["g1"; "Mammalia"; "Carnivora"; "Ursidae"; "Ursus"; "arctos"; " Brown Bear"])).
  { vm_compute. reflexivity. }
  assert (H' : latin_to_row (load (Some spaced_file)) !! "ursus arctos"
               = Some (mk_entry "ursus arctos" " Brown Bear"
                   ["g1"; "Mammalia"; "Carnivora"; "Ursidae"; "Ursus"; "arctos"; " Brown Bear"])).
  { vm_compute. reflexivity. }
  split; [exact H|].
  destruct (index_keys_lowercased (Some spaced_file) _ _ (or_intror H))
    as (Hl & Hs & _).
  split; [exact Hl|]. split; [exact Hs|].
  destruct (index_keys_lowercased (Some spaced_file) _ _ (or_introl H'))
    as (_ & _ & _ & Hlat & _).
  destruct (Hlat H') as [_ Htrim]. apply Htrim.
  - intros [|[|[|[|[|[|i]]]]]] Hi; try lia; reflexivity.
  - discriminate.
Defined.

(** ** The hierarchy walk *)

(** C1, as stated, fails: with the genus row of [bear_file] loaded, the
    call for genus Ursus, species maritimus misses at the species level and
    then returns the genus-level entry. *)
Lemma hierarchy_returns_coarser :
  get_by_hierarchy (load (Some bear_file)) None None None (Some "Ursus") (Some "maritimus")
  = (Some (mk_entry "ursus" "bear genus"
       ["g2"; "Mammalia"; "Carnivora"; "Ursidae"; "Ursus"; ""; "bear genus"]),
     Some Genus)
  /\ ~ never_coarser (load (Some bear_file)) None None None (Some "Ursus") (Some "maritimus").
Proof.
  assert (H : get_by_hierarchy (load (Some bear_file)) None None None
                (Some "Ursus") (Some "maritimus")
              = (Some (mk_entry "ursus" "bear genus"
                   ["g2"; "Mammalia"; "Carnivora"; "Ursidae"; "Ursus"; ""; "bear genus"]),
                 Some Genus)).
  { vm_compute. reflexivity. }
  split; [exact H|].
  intros Hn. specialize (Hn _ _ Species H eq_refl). simpl in Hn. lia.
Qed.

(** C1, amended. [get_by_hierarchy] returns the hit of the finest level
    whose lookup succeeds, the levels being tried from species (which needs
    genus and species) through genus, family and order to class: a hit at
    one level is returned exactly when every finer level misses, and no
    match is returned exactly when every level misses. *)
Theorem hierarchy_first_hit (t : TaxonomyLoader)
    (tax_class tax_order tax_family tax_genus tax_species : option string) :
  let h := hit t tax_class tax_order tax_family tax_genus tax_species in
  let r := get_by_hierarchy t tax_class tax_order tax_family tax_genus tax_species in
  (forall e l, r = (Some e, Some l) <->
     h l = Some e /\ forall l', rank l < rank l' -> h l' = None)
  /\ (r = (None, None) <-> forall l, h l = None)
  /\ (forall e, h Species = Some e -> r = (Some e, Some Species)).
Proof.
  intros h r. subst h r. unfold get_by_hierarchy, hit. cbv zeta.
  set (sp := if given (norm_rank tax_genus) && given (norm_rank tax_species)
             then _ else None).
  destruct sp as [e5|];
    [|destruct (try_rank t (norm_rank tax_genus)) as [e4|];
      [|destruct (try_rank t (norm_rank tax_family)) as [e3|];
        [|destruct (try_rank t (norm_rank tax_order)) as [e2|];
          [|destruct (try_rank t (norm_rank tax_class)) as [e1|]]]]].
  all: split; [intros e l; split|split; [split|]].
  all: try (intros H; inversion H; subst; clear H; split;
            [done|intros [] ?; simpl in *; (done || lia)]).
  all: try (intros [Hh Hf]; destruct l; simpl in Hh; try discriminate Hh;
            try (by simplify_eq); exfalso;
            first [ specialize (Hf Species ltac:(simpl; lia)); discriminate Hf
                  | specialize (Hf Genus ltac:(simpl; lia)); discriminate Hf
                  | specialize (Hf Family ltac:(simpl; lia)); discriminate Hf
                  | specialize (Hf Order ltac:(simpl; lia)); discriminate Hf ]).
  all: try (intros H; first [ discriminate (H Species) | discriminate (H Genus)
                            | discriminate (H Family) | discriminate (H Order)
                            | discriminate (H Class) ]).
  all: try (intros []; done).
  all: try (by intros ? [= <-]).
  all: try done.
  all: by intros _ [].
Qed.

(** ** The exact-match parser *)

Lemma first_pass_brown_bear :
  first_pass (load (Some brown_bear_file)) (splitlines "Ursus arctos, Brown Bear")
  = ([brown_bear_row], []).
Proof. vm_compute. reflexivity. Qed.

(** C9. When the first comma-separated token of a line is a known Latin
    name and the second is not, the parser returns the canonical latin and
    common of the entry found for the first token, echoes the first token
    as original_latin and the second, unvalidated, as original_common.
    With the row [g1;Mammalia;Carnivora;Ursidae;Ursus;arctos;Brown Bear]
    loaded, the line ["Ursus arctos, Brown Bear"] yields latin
    ["ursus arctos"], common ["Brown Bear"], original_latin
    ["Ursus arctos"], original_common ["Brown Bear"]; the line is not queued
    for the model, and the pipeline returns that row whatever the model and
    the JSON decoder are. *)
Theorem exact_latin_then_common (t : TaxonomyLoader) (line p0 p1 : string)
    (rest : list string) (e : entry)
    (Hparts : strip <$> split "," line = p0 :: p1 :: rest)
    (H0 : get_by_latin t p0 = Some e)
    (H1 : get_by_latin t p1 = None) :
  match_single_line_exact t line
  = {| latin := entry_latin e;
       common := entry_common e;
       original_latin := p0;
       original_common := p1;
       raw_input := line;
       match_level := None |}
  /\ match_single_line_exact (load (Some brown_bear_file)) "Ursus arctos, Brown Bear"
     = brown_bear_row
  /\ snd (first_pass (load (Some brown_bear_file))
            (splitlines "Ursus arctos, Brown Bear")) = []
  /\ (forall json_loads GenerativeModel g location user_api_key,
        process_input json_loads GenerativeModel
          (mk_matcher (load (Some brown_bear_file)) g)
          "Ursus arctos, Brown Bear" location user_api_key
        = [brown_bear_row]).
Proof.
  split; [|split; [|split]].
  - unfold match_single_line_exact. rewrite Hparts. simpl. by rewrite H0, H1.
  - vm_compute. reflexivity.
  - by rewrite first_pass_brown_bear.
  - intros. unfold process_input, results_before_pass3. cbv zeta.
    change (taxonomy (mk_matcher (load (Some brown_bear_file)) g))
      with (load (Some brown_bear_file)).
    rewrite first_pass_brown_bear. reflexivity.
Qed.

Lemma exact_latin_then_common_witness :
  match_single_line_exact (load (Some bear_file)) "  URSUS , teddy, x"
  = {| latin := "ursus";
       common := "bear genus";
       original_latin := "URSUS";
       original_common := "teddy";
       raw_input := "  URSUS , teddy, x";
       match_level := None |}.
Proof.
  refine (proj1 (exact_latin_then_common (load (Some bear_file))
                   "  URSUS , teddy, x" "URSUS" "teddy" ["x"]
                   (mk_entry "ursus" "bear genus"
                      ["g2"; "Mammalia"; "Carnivora"; "Ursidae"; "Ursus"; ""; "bear genus"])
                   _ _ _)).
  - reflexivity.
  - vm_compute. reflexivity.
  - vm_compute. reflexivity.
Defined.

(** ** The LLM-assisted pass: what it may change *)

Global Instance updated_refl t : Reflexive (updated t).
Proof. intros r. by left. Qed.

Lemma updated_trans t r1 r2 r3 : updated t r1 r2 -> updated t r2 r3 -> updated t r1 r3.
Proof.
  intros [->|(Hl & e & lvl & He & ->)] [->|(Hl' & e' & lvl' & He' & ->)];
    [by left|right|right|right]; eauto 10.
Qed.

Lemma exc_bind_Ok {A B} (m : exc A) (k : A -> exc B) b :
  exc_bind m k = Ok b -> exists a, m = Ok a /\ k a = Ok b.
Proof. destruct m; simpl; [eauto|done]. Qed.

(** Inversion of a chain of binds that returns. *)
Ltac exc_inv H :=
  repeat match type of H with
         | exc_bind _ _ = Ok _ =>
             let a := fresh "v" in
             let Ha := fresh "Hv" in
             apply exc_bind_Ok in H as (a & Ha & H)
         end.

Lemma get_by_latin_from_index t s e : get_by_latin t s = Some e -> from_index t e.
Proof. intros H. exists (strip (lower s)). by left. Qed.

Lemma get_by_common_from_index t s e : get_by_common t s = Some e -> from_index t e.
Proof. intros H. exists (strip (lower s)). by right. Qed.

Lemma try_rank_from_index t o e : try_rank t o = Some e -> from_index t e.
Proof.
  destruct o as [s|]; simpl; [|done].
  destruct (nonempty s); [apply get_by_latin_from_index|done].
Qed.

Lemma get_by_hierarchy_from_index t c o f g s e l :
  get_by_hierarchy t c o f g s = (Some e, l) -> from_index t e.
Proof.
  unfold get_by_hierarchy. cbv zeta.
  assert (Hsp : forall k, (if given (norm_rank g) && given (norm_rank s)
                           then get_by_latin t k else None) = Some e ->
                          from_index t e).
  { intros k. destruct (_ && _); [apply get_by_latin_from_index|done]. }
  destruct (if given (norm_rank g) && given (norm_rank s) then _ else None) eqn:H5;
    [intros [= <- <-]; by eapply Hsp|].
  destruct (try_rank t (norm_rank g)) eqn:H4;
    [intros [= <- <-]; by eapply try_rank_from_index|].
  destruct (try_rank t (norm_rank f)) eqn:H3;
    [intros [= <- <-]; by eapply try_rank_from_index|].
  destruct (try_rank t (norm_rank o)) eqn:H2;
    [intros [= <- <-]; by eapply try_rank_from_index|].
  destruct (try_rank t (norm_rank c)) eqn:H1;
    [intros [= <- <-]; by eapply try_rank_from_index|].
  done.
Qed.

Lemma match_candidates_from_index t candidates e l :
  match_candidates t candidates = Ok (Some e, l) -> from_index t e.
Proof.
  induction candidates as [|candidate rest IH]; simpl; [done|].
  destruct (negb (py_truthy candidate)); [done|].
  intros H. exc_inv H.
  destruct (get_by_hierarchy t v4 v5 v6 v7 v8) as [[e'|] l'] eqn:Hh; [|by apply IH].
  injection H as <- <-. by eapply get_by_hierarchy_from_index.
Qed.

(** What [write_back] does to the row at each position. *)
Lemma write_back_lookup inp m rs i r r' :
  rs !! i = Some r -> write_back inp m rs !! i = Some r' -> r' <> r ->
  str_eq_py (raw_input r) inp = true
  /\ latin r = ""
  /\ (forall j r0, j < i -> rs !! j = Some r0 ->
        str_eq_py (raw_input r0) inp = true -> latin r0 <> "")
  /\ exists e lvl, m = (Some e, lvl) /\ r' = fill r e lvl.
Proof.
  revert i. induction rs as [|res rest IH]; intros i; simpl; [done|].
  destruct (str_eq_py (raw_input res) inp && negb (nonempty (latin res))) eqn:Hc.
  - apply andb_true_iff in Hc as [Heq Hl].
    apply negb_true_iff, nonempty_false in Hl.
    destruct m as [[e|] lvl]; destruct i as [|i]; simpl;
      intros; simplify_eq.
    repeat split; [done..|lia|eauto].
  - destruct i as [|i]; simpl; intros Hr Hr' Hne; simplify_eq.
    destruct (IH i Hr Hr' Hne) as (H1 & H2 & H3 & H4).
    repeat split; [done..| |done].
    intros [|j] r0 Hj Hr0 Heq; simpl in Hr0; simplify_eq.
    + rewrite Heq in Hc. simpl in Hc. apply negb_false_iff in Hc.
      by apply nonempty_true.
    + eapply H3; [|done..]. lia.
Qed.

Lemma write_back_length inp m rs : length (write_back inp m rs) = length rs.
Proof.
  induction rs as [|res rest IH]; simpl; [done|].
  destruct (_ && _); [by destruct m as [[?|] ?]|]. simpl. by rewrite IH.
Qed.

Lemma write_back_updated t inp m rs :
  (forall e l, m = (Some e, l) -> from_index t e) ->
  Forall2 (updated t) rs (write_back inp m rs).
Proof.
  intros Hm. apply Forall2_same_length_lookup. split.
  - by rewrite write_back_length.
  - intros i r r' Hr Hr'. destruct (decide (r' = r)) as [->|Hne]; [by left|].
    destruct (write_back_lookup _ _ _ _ _ _ Hr Hr' Hne) as (_ & Hl & _ & e & lvl & -> & ->).
    right. split; [done|]. exists e, lvl. split; [by eapply Hm|done].
Qed.

(** What one item of the answer does when its processing returns. *)
Lemma process_item_Ok t item rs rs' :
  process_item t item rs = Ok rs' ->
  exists inp,
    py_get item "input_text" = Ok inp
    /\ (rs' = rs
        \/ (py_truthy inp = true
            /\ exists m, (forall e l, m = (Some e, l) -> from_index t e)
                         /\ rs' = write_back inp m rs)).
Proof.
  unfold process_item. intros H. exc_inv H.
  exists v. split; [done|].
  destruct (py_truthy v) eqn:Ht; simpl in H; [|injection H as <-; by left].
  exc_inv H. injection H as <-. right. split; [done|].
  exists v5. split; [|done].
  intros e l ->. destruct v4 as [[e'|] l'].
  - injection Hv5 as <- <-. by eapply match_candidates_from_index.
  - exc_inv Hv5. destruct (py_truthy v4); [|done].
    exc_inv Hv5. destruct (get_by_common t v5) as [e'|] eqn:Hc; [|done].
    injection Hv5 as <- <-. by eapply get_by_common_from_index.
Qed.

Lemma process_item_updated t item rs rs' :
  process_item t item rs = Ok rs' -> Forall2 (updated t) rs rs'.
Proof.
  intros (inp & _ & [->|(_ & m & Hm & ->)])%process_item_Ok; [done|].
  by apply write_back_updated.
Qed.

Lemma Forall2_updated_trans t rs1 rs2 rs3 :
  Forall2 (updated t) rs1 rs2 -> Forall2 (updated t) rs2 rs3 ->
  Forall2 (updated t) rs1 rs3.
Proof. apply Forall2_trans, updated_trans. Qed.

Lemma process_items_updated t data rs :
  Forall2 (updated t) rs (snd (process_items t data rs)).
Proof.
  revert rs. induction data as [|item data IH]; intros rs; simpl; [done|].
  destruct (process_item t item rs) as [rs1|] eqn:Hi; simpl; [|done].
  eapply Forall2_updated_trans; [by eapply process_item_updated|apply IH].
Qed.

(** A raise inside the loop keeps what the items before it did. *)
Lemma process_items_app t pre post rs :
  process_items t (pre ++ post) rs
  = match process_items t pre rs with
    | (Ok _, rs1) => process_items t post rs1
    | (Raise, rs1) => (Raise, rs1)
    end.
Proof.
  revert rs. induction pre as [|item pre IH]; intros rs; simpl; [done|].
  by destruct (process_item t item rs).
Qed.

Section PipelineFacts.

Variable json_loads : string -> option pyval.
Variable GenerativeModel : string -> option llm.

Lemma try_block_updated t g prompt rs :
  Forall2 (updated t) rs (snd (try_block json_loads t g prompt rs)).
Proof.
  unfold try_block.
  destruct (g prompt); [|done].
  destruct (json_loads _); [|done].
  destruct (py_iter _); [|done].
  apply process_items_updated.
Qed.

Lemma batch_updated m unknown_items rs location user_api_key :
  Forall2 (updated (taxonomy m)) rs
    (batch_process_with_gemini json_loads GenerativeModel m unknown_items rs
       location user_api_key).
Proof.
  unfold batch_process_with_gemini.
  destruct (if given user_api_key then _ else _); [|done].
  apply try_block_updated.
Qed.

End PipelineFacts.

(** ** The first pass *)

Lemma first_pass_snoc t lines x :
  first_pass t (lines ++ [x])
  = first_pass_step t (first_pass t lines) (length lines, x).
Proof.
  unfold first_pass. rewrite imap_app, foldl_app. simpl.
  by rewrite Nat.add_0_r.
Qed.

Lemma first_pass_results t lines :
  fst (first_pass t lines)
  = match_single_line_exact t <$> List.filter nonempty (strip <$> lines).
Proof.
  induction lines as [|x lines IH] using rev_ind; [done|].
  rewrite first_pass_snoc, fmap_app, List.filter_app, fmap_app. simpl.
  destruct (first_pass t lines) as [results unknown_lines]. simpl in *.
  destruct (nonempty (strip x)); simpl.
  - destruct (nonempty (latin _)); simpl; by rewrite IH.
  - by rewrite IH, app_nil_r.
Qed.

Lemma raw_input_exact t line : raw_input (match_single_line_exact t line) = line.
Proof. unfold match_single_line_exact. by destruct (classify t _) as [[[? ?] ?] ?]. Qed.

Lemma match_level_exact t line : match_level (match_single_line_exact t line) = None.
Proof. unfold match_single_line_exact. by destruct (classify t _) as [[[? ?] ?] ?]. Qed.

(** ** The ambiguity pass: which rows it retracts *)

Lemma group_fold irs : forall acc k,
  default [] (foldl group_step acc irs !! k)
  = default [] (acc !! k) ++ members k irs.
Proof.
  induction irs as [|[i r] irs IH]; intros acc k; simpl.
  - by rewrite app_nil_r.
  - rewrite IH. unfold members, in_group. simpl.
    destruct (is_higher (match_level r) && nonempty (latin r)); simpl.
    + destruct (decide (latin r = k)) as [->|Hne].
      * rewrite lookup_insert_eq, bool_decide_eq_true_2 by done.
        simpl. by rewrite <- app_assoc.
      * rewrite lookup_insert_ne, bool_decide_eq_false_2 by done. done.
    + done.
Qed.

Lemma higher_level_matches_lookup rs k :
  default [] (higher_level_matches rs !! k) = members k (imap pair rs).
Proof. unfold higher_level_matches. by rewrite group_fold, lookup_empty. Qed.

Lemma elem_of_members k rs i :
  i ∈ members k (imap pair rs)
  <-> exists r, rs !! i = Some r /\ in_group k r = true.
Proof.
  unfold members. rewrite list_elem_of_fmap. split.
  - intros ([j r] & -> & Hin). apply list_elem_of_In, filter_In in Hin as [Hin Hg].
    apply list_elem_of_In, elem_of_lookup_imap in Hin as (j' & r' & [= -> ->] & Hr).
    by exists r'.
  - intros (r & Hr & Hg). exists (i, r). split; [done|].
    apply list_elem_of_In, filter_In. split; [|done].
    apply list_elem_of_In, elem_of_lookup_imap. eauto.
Qed.

Lemma retract_if_orb a b r :
  retract_if b (retract_if a r) = retract_if (a || b) r.
Proof. by destruct a, b. Qed.

Lemma retract_all_imap indices : forall rs,
  retract_all indices rs
  = imap (fun i => retract_if (bool_decide (i ∈ indices))) rs.
Proof.
  unfold retract_all.
  induction indices as [|idx indices IH]; intros rs; simpl.
  - apply list_eq. intros i. rewrite list_lookup_imap.
    by destruct (rs !! i).
  - rewrite IH. apply list_eq. intros i.
    rewrite !list_lookup_imap, list_lookup_alter.
    destruct (decide (idx = i)) as [->|Hne].
    + destruct (rs !! i) as [r|]; simpl; [|done].
      rewrite (bool_decide_eq_true_2 (i ∈ i :: indices))
        by (apply elem_of_cons; by left).
      f_equal. by destruct (bool_decide _).
    + destruct (rs !! i) as [r|]; simpl; [|done].
      f_equal. f_equal. apply bool_decide_ext.
      rewrite elem_of_cons. intuition congruence.
Qed.

Lemma retract_groups_imap gs : forall rs,
  foldl retract_group rs gs = imap (fun i => retract_if (marked gs i)) rs.
Proof.
  induction gs as [|g gs IH]; intros rs; simpl.
  - apply list_eq. intros i. rewrite list_lookup_imap. by destruct (rs !! i).
  - rewrite IH. apply list_eq. intros i.
    unfold retract_group. rewrite list_lookup_imap.
    destruct (1 <? length (snd g)); simpl.
    + rewrite retract_all_imap, !list_lookup_imap.
      destruct (rs !! i) as [r|]; simpl; [|done].
      by rewrite retract_if_orb.
    + by rewrite list_lookup_imap.
Qed.

Lemma resolve_lookup rs i :
  resolve_ambiguous_matches rs !! i
  = retract_if (marked (map_to_list (higher_level_matches rs)) i) <$> rs !! i.
Proof.
  unfold resolve_ambiguous_matches.
  by rewrite retract_groups_imap, list_lookup_imap.
Qed.

Lemma marked_true rs i :
  marked (map_to_list (higher_level_matches rs)) i = true
  <-> exists k, i ∈ members k (imap pair rs)
                /\ 1 < length (members k (imap pair rs)).
Proof.
  unfold marked. rewrite existsb_exists. split.
  - intros ([k idxs] & Hin & Hc). simpl in Hc.
    apply list_elem_of_In, elem_of_map_to_list in Hin.
    apply andb_true_iff in Hc as [Hlen Hi].
    apply Nat.ltb_lt in Hlen. apply bool_decide_eq_true in Hi.
    exists k. rewrite <- higher_level_matches_lookup, Hin. done.
  - intros (k & Hi & Hlen).
    pose proof (higher_level_matches_lookup rs k) as Hk.
    destruct (higher_level_matches rs !! k) as [idxs|] eqn:Hm; simpl in Hk.
    + exists (k, idxs). split.
      * by apply list_elem_of_In, elem_of_map_to_list.
      * simpl. rewrite Hk. apply andb_true_iff. split.
        -- by apply Nat.ltb_lt.
        -- by apply bool_decide_eq_true.
    + rewrite <- Hk in Hlen. simpl in Hlen. lia.
Qed.

Lemma two_members {A} (l : list A) x y : x ∈ l -> y ∈ l -> x <> y -> 1 < length l.
Proof.
  destruct l as [|a [|b l]]; simpl; [|intros ->%list_elem_of_singleton|lia].
  - by intros ?%elem_of_nil.
  - by intros ->%list_elem_of_singleton.
Qed.

Lemma resolve_retracted rs : Forall2 retracted rs (resolve_ambiguous_matches rs).
Proof.
  apply Forall2_same_length_lookup. split.
  - unfold resolve_ambiguous_matches. by rewrite retract_groups_imap, length_imap.
  - intros i r r' Hr. rewrite resolve_lookup, Hr. simpl. intros [= <-].
    destruct (marked _ i); [by right|by left].
Qed.

(** C2. After the ambiguity pass every row of a group of two or more rows
    that carry a level among genus, family, order, class and share one
    resolved (non-empty) latin has latin and common empty and level
    ambiguous, the rest of the row being kept; a row whose level is species
    or common_name_fallback, or that has no level, is left exactly as it
    was, whatever its latin collides with. *)
Theorem ambiguity_pass_retracts_groups (rs : list result) :
  let out := resolve_ambiguous_matches rs in
  length out = length rs
  /\ (forall i j ri rj,
        i <> j -> rs !! i = Some ri -> rs !! j = Some rj ->
        is_higher (match_level ri) = true -> is_higher (match_level rj) = true ->
        latin ri <> "" -> latin rj = latin ri ->
        out !! i = Some (retract ri)
        /\ latin (retract ri) = "" /\ common (retract ri) = ""
        /\ match_level (retract ri) = Some Ambiguous)
  /\ (forall i r,
        rs !! i = Some r ->
        match_level r = Some Species \/ match_level r = Some CommonNameFallback
        \/ match_level r = None ->
        out !! i = Some r).
Proof.
  simpl. split; [|split].
  - symmetry. apply (Forall2_length _ _ _ (resolve_retracted rs)).
  - intros i j ri rj Hij Hi Hj Hhi Hhj Hne Heq.
    split; [|done].
    rewrite resolve_lookup, Hi. simpl. f_equal.
    assert (Hm : marked (map_to_list (higher_level_matches rs)) i = true).
    { apply marked_true. exists (latin ri).
      assert (Hgi : i ∈ members (latin ri) (imap pair rs)).
      { apply elem_of_members. exists ri. split; [done|]. unfold in_group.
        apply nonempty_true in Hne. rewrite Hhi, Hne. simpl.
        by apply bool_decide_eq_true. }
      assert (Hgj : j ∈ members (latin ri) (imap pair rs)).
      { apply elem_of_members. exists rj. split; [done|]. unfold in_group.
        rewrite <- Heq in Hne. apply nonempty_true in Hne. rewrite Hhj, Hne. simpl.
        by apply bool_decide_eq_true. }
      split; [done|]. exact (two_members _ i j Hgi Hgj Hij). }
    by rewrite Hm.
  - intros i r Hi Hl. rewrite resolve_lookup, Hi. simpl. f_equal.
    destruct (marked _ i) eqn:Hm; [|done]. exfalso.
    apply marked_true in Hm as (k & (r' & Hr' & Hg)%elem_of_members & _).
    rewrite Hi in Hr'. injection Hr' as <-. unfold in_group in Hg.
    destruct Hl as [Hl|[Hl|Hl]]; by rewrite Hl in Hg.
Qed.

Lemma ambiguity_pass_retracts_groups_witness :
  resolve_ambiguous_matches fox_rows !! 0
  = Some (mk_result "" "" "" "kit fox" "kit fox" (Some Ambiguous))
  /\ resolve_ambiguous_matches fox_rows !! 1 = fox_rows !! 1
  /\ resolve_ambiguous_matches fox_rows !! 3 = fox_rows !! 3.
Proof.
  destruct (ambiguity_pass_retracts_groups fox_rows) as (_ & Hgroup & Hkeep).
  split; [|split].
  - refine (proj1 (Hgroup 0 2 _ _ _ eq_refl eq_refl eq_refl eq_refl _ eq_refl));
      discriminate.
  - apply (Hkeep 1 _ eq_refl). by left.
  - apply (Hkeep 3 _ eq_refl). by right; right.
Defined.

(** ** The frame of the LLM-assisted pass *)

Lemma str_eq_py_true s v : str_eq_py s v = true -> v = PyStr s.
Proof.
  destruct v; simpl; try done. by intros ->%bool_decide_eq_true.
Qed.

Section Frame.

Variable json_loads : string -> option pyval.
Variable GenerativeModel : string -> option llm.

(** C3. In the LLM-assisted pass an item modifies a row only if the row's
    raw_input equals the item's input_text and the row's latin is empty;
    the row it modifies is the first such row of the list, and every
    other row is left as it was; an item whose processing raises
    modifies nothing; and over the whole pass a row with a non-empty
    latin comes out unchanged. *)
Theorem llm_pass_frame (m : Matcher)
    (unknown_items : list (nat * string * result)) (rs : list result)
    (location user_api_key : option string) :
  let t := taxonomy m in
  let rs' := batch_process_with_gemini json_loads GenerativeModel m
               unknown_items rs location user_api_key in
  (forall i r, rs !! i = Some r -> latin r <> "" -> rs' !! i = Some r)
  /\ (forall item rs0 rs1,
        process_item t item rs0 = Ok rs1 ->
        forall i r r',
          rs0 !! i = Some r -> rs1 !! i = Some r' -> r' <> r ->
          py_get item "input_text" = Ok (PyStr (raw_input r))
          /\ latin r = ""
          /\ (forall j r0, j < i -> rs0 !! j = Some r0 ->
                raw_input r0 = raw_input r -> latin r0 <> "")
          /\ (forall j r0, j <> i -> rs0 !! j = Some r0 -> rs1 !! j = Some r0))
  /\ (forall item data rs0,
        process_item t item rs0 = Raise ->
        process_items t (item :: data) rs0 = (Raise, rs0)).
Proof.
  simpl. split; [|split].
  - intros i r Hr Hne.
    pose proof (batch_updated json_loads GenerativeModel m unknown_items rs
                  location user_api_key) as HF.
    destruct (Forall2_lookup_l _ _ _ _ _ HF Hr) as (r' & Hr' & [->|[Hl _]]);
      [done|by rewrite Hl in Hne].
  - intros item rs0 rs1 (inp & Hinp & [->|(Ht & mt & _ & ->)])%process_item_Ok
      i r r' Hr Hr' Hne; [congruence|].
    destruct (write_back_lookup _ _ _ _ _ _ Hr Hr' Hne) as (Heq & Hl & Hfirst & _).
    apply str_eq_py_true in Heq. subst inp.
    split; [done|]. split; [done|]. split.
    + intros j r0 Hj Hr0 Hraw. apply (Hfirst j r0 Hj Hr0).
      rewrite Hraw. simpl. by apply bool_decide_eq_true.
    + intros j r0 Hji Hr0.
      destruct (write_back (PyStr (raw_input r)) mt rs0 !! j) as [r0'|] eqn:Hr0'.
      * destruct (decide (r0' = r0)) as [->|Hne0]; [done|]. exfalso.
        destruct (write_back_lookup _ _ _ _ _ _ Hr0 Hr0' Hne0)
          as (Heq0 & Hl0 & Hfirst0 & _).
        apply str_eq_py_true in Heq0. injection Heq0 as Heq0.
        destruct (Nat.lt_total j i) as [Hlt|[->|Hlt]]; [|done|].
        -- apply (Hfirst j r0 Hlt Hr0); [|done].
           rewrite <- Heq0. simpl. by apply bool_decide_eq_true.
        -- apply (Hfirst0 i r Hlt Hr); [|done].
           rewrite Heq0. simpl. by apply bool_decide_eq_true.
      * apply lookup_ge_None in Hr0'. rewrite write_back_length in Hr0'.
        apply lookup_lt_Some in Hr0. lia.
  - intros item data rs0 H. simpl. by rewrite H.
Qed.

End Frame.

(** ** The pipeline *)

Lemma canonical_exact t line : canonical t (match_single_line_exact t line).
Proof.
  unfold match_single_line_exact, classify.
  destruct (strip <$> split "," line) as [|p0 [|p1 rest]]; simpl.
  - by left.
  - destruct (get_by_latin t p0) as [e|] eqn:Hl; simpl.
    { right. exists e. split; [by eapply get_by_latin_from_index|done]. }
    destruct (get_by_common t p0) as [e|] eqn:Hc; simpl; [|by left].
    right. exists e. split; [by eapply get_by_common_from_index|done].
  - destruct (get_by_latin t p0) as [e0|] eqn:H0l,
             (get_by_latin t p1) as [e1|] eqn:H1l,
             (get_by_common t p0) as [c0|] eqn:H0c,
             (get_by_common t p1) as [c1|] eqn:H1c; simpl;
      first [ by left
            | right; eexists; (split; [|split; reflexivity]);
              first [ by eapply get_by_latin_from_index
                    | by eapply get_by_common_from_index ] ].
Qed.

Lemma canonical_updated t r r' : canonical t r -> updated t r r' -> canonical t r'.
Proof.
  intros Hc [->|(_ & e & lvl & He & ->)]; [done|].
  right. by exists e.
Qed.

Lemma canonical_retracted t r r' : canonical t r -> retracted r r' -> canonical t r'.
Proof. intros Hc [->| ->]; [done|by left]. Qed.

Lemma updated_raw_input t r r' : updated t r r' -> raw_input r' = raw_input r.
Proof. by intros [->|(_ & e & lvl & _ & ->)]. Qed.

Lemma retracted_raw_input r r' : retracted r r' -> raw_input r' = raw_input r.
Proof. by intros [->| ->]. Qed.

Lemma Forall2_fmap_eq {A B} (f : A -> B) (P : A -> A -> Prop) l l' :
  (forall x y, P x y -> f y = f x) -> Forall2 P l l' -> f <$> l' = f <$> l.
Proof. intros HP. induction 1; simpl; [done|]. f_equal; auto. Qed.

Lemma Forall2_Forall_preserved {A} (P : A -> A -> Prop) (Q : A -> Prop) l l' :
  (forall x y, Q x -> P x y -> Q y) -> Forall Q l -> Forall2 P l l' -> Forall Q l'.
Proof.
  intros HP HQ HF. induction HF; [done|].
  inversion HQ; subst. constructor; eauto.
Qed.

(** An entry of a loaded index has a non-empty latin. *)
Lemma from_index_latin_nonempty file e :
  from_index (load file) e -> entry_latin e <> "".
Proof.
  intros [k Hk]. destruct (load_ok file) as [HL HC].
  assert (He : loaded_from e).
  { destruct Hk as [Hk|Hk]; [by apply HL in Hk as [? _]|by apply HC in Hk as [? _]]. }
  destruct He as (_ & Hcl & _). by eapply construct_latin_nonempty.
Qed.

Section PipelineTheorems.

Variable json_loads : string -> option pyval.
Variable GenerativeModel : string -> option llm.

Lemma second_pass_updated m input_text location user_api_key :
  Forall2 (updated (taxonomy m))
    (fst (first_pass (taxonomy m) (splitlines input_text)))
    (results_before_pass3 json_loads GenerativeModel m input_text
       location user_api_key).
Proof.
  unfold results_before_pass3.
  destruct (first_pass (taxonomy m) (splitlines input_text))
    as [results unknown_lines]. simpl.
  destruct (_ && _); [apply batch_updated|done].
Qed.

(** On a loaded index every row that enters the ambiguity pass with a
    level among genus, family, order, class has a non-empty latin, so the
    guard [and latin] of the grouping loop never drops such a row. *)
Lemma higher_rows_resolved file g input_text location user_api_key r :
  r ∈ results_before_pass3 json_loads GenerativeModel
        (mk_matcher (load file) g) input_text location user_api_key ->
  is_higher (match_level r) = true -> latin r <> "".
Proof.
  revert r.
  apply (Forall_forall (fun r => is_higher (match_level r) = true -> latin r <> "")).
  eapply Forall2_Forall_preserved;
    [|
     |apply (second_pass_updated (mk_matcher (load file) g) input_text
               location user_api_key)].
  - intros r1 r2 H1 [->|(_ & e & lvl & He & ->)]; [done|].
    intros _. simpl in *. by apply (from_index_latin_nonempty file).
  - simpl. rewrite first_pass_results. apply Forall_fmap, Forall_forall.
    intros line _. simpl. by rewrite match_level_exact.
Qed.

(** C5. [process_input] returns one row per line that is not empty once
    trimmed, in the order of the lines: the raw_input fields of the rows
    returned are exactly the trimmed non-blank lines of the input, so a
    blank or whitespace-only line gives no row. *)
Theorem one_row_per_nonblank_line (m : Matcher) (input_text : string)
    (location user_api_key : option string) :
  let rows := process_input json_loads GenerativeModel m input_text
                location user_api_key in
  let lines := List.filter nonempty (strip <$> splitlines input_text) in
  raw_input <$> rows = lines
  /\ length rows = length lines.
Proof.
  simpl.
  assert (H : raw_input <$> process_input json_loads GenerativeModel m input_text
                             location user_api_key
              = List.filter nonempty (strip <$> splitlines input_text)).
  { unfold process_input.
    rewrite (Forall2_fmap_eq _ _ _ _ retracted_raw_input (resolve_retracted _)).
    rewrite (Forall2_fmap_eq _ _ _ _ (updated_raw_input (taxonomy m))
               (second_pass_updated m input_text location user_api_key)).
    rewrite first_pass_results, <- list_fmap_compose.
    erewrite list_fmap_ext; [apply list_fmap_id|].
    intros i x _. apply raw_input_exact. }
  split; [done|]. by rewrite <- H, length_fmap.
Qed.

End PipelineTheorems.

Section FailOpen.

Variable json_loads : string -> option pyval.
Variable GenerativeModel : string -> option llm.

(** C8. The batch step always returns rows to [process_input]: whatever
    the model answers and whatever the decoder makes of it, each row comes
    out untouched or, if it was unresolved, filled from an entry of the
    index.  When the model call raises, when the answer does not decode,
    or when the decoded value cannot be iterated, the rows are exactly
    those of before; when an item raises in the loop, the rows are those
    left by the items before it; and with a decoder that rejects every
    text the pipeline returns what passes 1 and 3 give alone. *)
Theorem llm_pass_fails_open (m : Matcher)
    (unknown_items : list (nat * string * result)) (rs : list result)
    (location user_api_key : option string) :
  let t := taxonomy m in
  Forall2 (updated t) rs
    (batch_process_with_gemini json_loads GenerativeModel m unknown_items rs
       location user_api_key)
  /\ (forall g prompt,
        g prompt = None -> try_block json_loads t g prompt rs = (Raise, rs))
  /\ (forall g prompt content,
        g prompt = Some content -> json_loads (strip_fences content) = None ->
        try_block json_loads t g prompt rs = (Raise, rs))
  /\ (forall g prompt content data,
        g prompt = Some content -> json_loads (strip_fences content) = Some data ->
        py_iter data = Raise ->
        try_block json_loads t g prompt rs = (Raise, rs))
  /\ (forall pre item post rs_mid,
        process_items t pre rs = (Ok tt, rs_mid) ->
        process_item t item rs_mid = Raise ->
        process_items t (pre ++ item :: post) rs = (Raise, rs_mid)
        /\ Forall2 (updated t) rs rs_mid)
  /\ (forall input_text,
        (forall text, json_loads text = None) ->
        process_input json_loads GenerativeModel m input_text location user_api_key
        = resolve_ambiguous_matches
            (fst (first_pass t (splitlines input_text)))).
Proof.
  simpl. split; [apply batch_updated|].
  split; [|split; [|split; [|split]]].
  - intros g prompt Hg. unfold try_block. by rewrite Hg.
  - intros g prompt content Hg Hj. unfold try_block. by rewrite Hg, Hj.
  - intros g prompt content data Hg Hj Hi. unfold try_block.
    by rewrite Hg, Hj, Hi.
  - intros pre item post rs_mid Hpre Hitem. split.
    + rewrite process_items_app, Hpre. simpl. by rewrite Hitem.
    + pose proof (process_items_updated (taxonomy m) pre rs) as H.
      by rewrite Hpre in H.
  - intros input_text Hj. unfold process_input, results_before_pass3.
    destruct (first_pass (taxonomy m) (splitlines input_text))
      as [results unknown_lines]. simpl.
    destruct (_ && _); [|done]. f_equal.
    unfold batch_process_with_gemini.
    destruct (if given user_api_key then _ else _) as [g|]; [|done].
    unfold try_block. destruct (g _); [|done]. by rewrite Hj.
Qed.

(** C10. In every row that [process_input] returns for a loaded index the
    canonical pair comes from one source: a non-empty common implies a
    non-empty latin, and a non-empty latin means that latin and common
    are those of one entry of the index.  Each pass keeps this: a row of
    pass 1 has both fields empty or both from one entry, pass 2 fills
    both from one entry, pass 3 clears both. *)
Theorem canonical_pair_from_one_entry (file : option (list string))
    (g : option llm) (input_text : string)
    (location user_api_key : option string) (r : result)
    (Hr : r ∈ process_input json_loads GenerativeModel
                (mk_matcher (load file) g) input_text location user_api_key) :
  let t := load file in
  (common r <> "" -> latin r <> "")
  /\ (latin r <> "" ->
      exists e, from_index t e
                /\ latin r = entry_latin e /\ common r = entry_common e)
  /\ (forall line, canonical t (match_single_line_exact t line))
  /\ (forall r1 r2, canonical t r1 -> updated t r1 r2 -> canonical t r2)
  /\ (forall r1 r2, canonical t r1 -> retracted r1 r2 -> canonical t r2).
Proof.
  simpl. set (t := load file) in *.
  assert (Hc : canonical t r).
  { revert r Hr. apply Forall_forall. unfold process_input.
    eapply Forall2_Forall_preserved;
      [apply (canonical_retracted t)| |apply resolve_retracted].
    eapply Forall2_Forall_preserved;
      [apply (canonical_updated t)|
      |apply (second_pass_updated json_loads GenerativeModel
                (mk_matcher t g) input_text location user_api_key)].
    simpl. rewrite first_pass_results. apply Forall_fmap, Forall_forall.
    intros line _. apply canonical_exact. }
  pose proof (from_index_latin_nonempty file) as Hne. fold t in Hne.
  split; [|split; [|split; [|split]]].
  - intros Hcom. destruct Hc as [[_ Hc]|(e & He & Hl & _)]; [done|].
    rewrite Hl. by apply Hne.
  - intros Hlat. destruct Hc as [[Hc _]|(e & He & Hl & Hcm)]; [done|].
    by exists e.
  - apply canonical_exact.
  - apply canonical_updated.
  - apply canonical_retracted.
Qed.

End FailOpen.

(** ** A worked batch *)

Example fox_batch :
  process_input fox_loads no_user_model fox_matcher fox_input None None
  = [mk_result "" "" "" "kit fox" "kit fox" (Some Ambiguous);
     mk_result "" "" "" "swift fox" "swift fox" (Some Ambiguous);
     mk_result "vulpes vulpes" "Red Fox" "" "renard" "renard" (Some Species);
     mk_result "ursus arctos" "Brown Bear" "Ursus arctos" "bear"
       "Ursus arctos, bear" None;
     mk_result "ursus arctos" "Brown Bear" "" "grizzly" "grizzly"
       (Some CommonNameFallback);
     mk_result "" "" "" "silvertip" "silvertip" None].
Proof. vm_compute. reflexivity. Qed.

Example silvertip_without_model :
  process_input fox_loads no_user_model
    (mk_matcher (load (Some fox_file)) None) "silvertip" None None
  = [mk_result "" "" "" "silvertip" "silvertip" None].
Proof. vm_compute. reflexivity. Qed.

Lemma llm_pass_frame_witness :
  batch_process_with_gemini fox_loads no_user_model fox_matcher [] fox_pass1
    None None !! 3
  = Some (mk_result "ursus arctos" "Brown Bear" "Ursus arctos" "bear"
            "Ursus arctos, bear" None).
Proof.
  apply (proj1 (llm_pass_frame fox_loads no_user_model fox_matcher [] fox_pass1
                  None None)).
  - vm_compute. reflexivity.
  - discriminate.
Defined.

Lemma llm_pass_fails_open_witness :
  process_items (taxonomy fox_matcher)
    ([PyDict [("input_text", PyStr "grizzly");
              ("suggested_common", PyStr "brown bear")]]
     ++ PyNum 3 :: [PyDict [("input_text", PyStr "silvertip");
                            ("suggested_common", PyStr "brown bear")]])
    [mk_result "" "" "" "grizzly" "grizzly" None;
     mk_result "" "" "" "silvertip" "silvertip" None]
  = (Raise,
     [mk_result "ursus arctos" "Brown Bear" "" "grizzly" "grizzly"
        (Some CommonNameFallback);
      mk_result "" "" "" "silvertip" "silvertip" None]).
Proof.
  destruct (llm_pass_fails_open fox_loads no_user_model fox_matcher []
              [mk_result "" "" "" "grizzly" "grizzly" None;
               mk_result "" "" "" "silvertip" "silvertip" None] None None)
    as (_ & _ & _ & _ & Hmid & _).
  apply Hmid.
  - vm_compute. reflexivity.
  - reflexivity.
Defined.

Lemma canonical_pair_from_one_entry_witness :
  let r := mk_result "ursus arctos" "Brown Bear" "" "grizzly" "grizzly"
             (Some CommonNameFallback) in
  r ∈ process_input fox_loads no_user_model fox_matcher fox_input None None
  /\ (common r <> "" -> latin r <> "")
  /\ (latin r <> "" ->
      exists e, from_index (load (Some fox_file)) e
                /\ latin r = entry_latin e /\ common r = entry_common e).
Proof.
  simpl.
  assert (H : mk_result "ursus arctos" "Brown Bear" "" "grizzly" "grizzly"
                (Some CommonNameFallback)
              ∈ process_input fox_loads no_user_model fox_matcher fox_input None None).
  { rewrite fox_batch. apply list_elem_of_lookup. exists 4. reflexivity. }
  split; [exact H|].
  destruct (canonical_pair_from_one_entry fox_loads no_user_model
              (Some fox_file) (Some (fun _ => Some "[]")) fox_input None None _ H)
    as (H1 & H2 & _).
  split; [exact H1|exact H2].
Defined.

(** * Further properties of the code *)

(** ** The ambiguity pass, completed *)

Lemma in_group_latin k r : in_group k r = true -> latin r = k.
Proof.
  unfold in_group. intros H. apply andb_true_iff in H as [_ H].
  by apply bool_decide_eq_true in H.
Qed.

Lemma in_group_higher k r :
  in_group k r = true -> is_higher (match_level r) = true /\ latin r <> "".
Proof.
  unfold in_group. intros H. apply andb_true_iff in H as [H _].
  apply andb_true_iff in H as [H1 H2]. split; [done|by apply nonempty_true].
Qed.

Lemma in_group_intro r :
  is_higher (match_level r) = true -> latin r <> "" -> in_group (latin r) r = true.
Proof.
  intros H1 H2%nonempty_true. unfold in_group. rewrite H1, H2. simpl.
  by apply bool_decide_eq_true.
Qed.

Lemma members_snoc k rs r :
  members k (imap pair (rs ++ [r]))
  = members k (imap pair rs) ++ (if in_group k r then [length rs] else []).
Proof.
  unfold members. rewrite imap_app. simpl.
  rewrite List.filter_app, fmap_app. simpl. rewrite Nat.add_0_r.
  by destruct (in_group k r).
Qed.

Lemma members_lt k rs i : i ∈ members k (imap pair rs) -> i < length rs.
Proof. intros (r & Hr & _)%elem_of_members. by eapply lookup_lt_Some. Qed.

Lemma members_NoDup k rs : NoDup (members k (imap pair rs)).
Proof.
  induction rs as [|r rs IH] using rev_ind; [constructor|].
  rewrite members_snoc. destruct (in_group k r); [|by rewrite app_nil_r].
  apply NoDup_app. split; [done|]. split; [|apply NoDup_singleton].
  intros i Hi ->%list_elem_of_singleton. apply members_lt in Hi. lia.
Qed.

Lemma other_member (l : list nat) x :
  NoDup l -> 1 < length l -> x ∈ l -> exists y, y ∈ l /\ y <> x.
Proof.
  destruct l as [|a [|b l]]; simpl; [lia|lia|].
  intros [Ha _]%NoDup_cons _ _.
  destruct (decide (x = a)) as [->|Hne].
  - exists b. split; [apply elem_of_cons; right; apply elem_of_cons; by left|].
    intros ->. apply Ha. apply elem_of_cons. by left.
  - exists a. split; [apply elem_of_cons; by left|done].
Qed.

(** A row is marked for retraction exactly when it takes part in the
    grouping and another row takes part under the same latin. *)
Lemma marked_iff rs i r :
  rs !! i = Some r ->
  marked (map_to_list (higher_level_matches rs)) i = true
  <-> in_group (latin r) r = true
      /\ exists j rj, j <> i /\ rs !! j = Some rj /\ in_group (latin r) rj = true.
Proof.
  intros Hi. rewrite marked_true. split.
  - intros (k & Hik & Hlen).
    pose proof Hik as (r' & Hr' & Hg)%elem_of_members.
    rewrite Hi in Hr'. injection Hr' as <-.
    pose proof (in_group_latin _ _ Hg) as <-. split; [done|].
    destruct (other_member _ i (members_NoDup _ rs) Hlen Hik) as (j & Hj & Hne).
    apply elem_of_members in Hj as (rj & Hrj & Hgj). eauto.
  - intros (Hg & j & rj & Hne & Hrj & Hgj). exists (latin r).
    assert (Hmi : i ∈ members (latin r) (imap pair rs))
      by (apply elem_of_members; eauto).
    assert (Hmj : j ∈ members (latin r) (imap pair rs))
      by (apply elem_of_members; eauto).
    split; [done|]. exact (two_members _ j i Hmj Hmi Hne).
Qed.

Lemma resolve_row rs i r :
  rs !! i = Some r ->
  resolve_ambiguous_matches rs !! i
  = Some (retract_if (marked (map_to_list (higher_level_matches rs)) i) r).
Proof. intros Hi. by rewrite resolve_lookup, Hi. Qed.

Lemma resolve_length rs : length (resolve_ambiguous_matches rs) = length rs.
Proof. symmetry. apply (Forall2_length _ _ _ (resolve_retracted rs)). Qed.

(** In the output of the pass no two rows take part in one group. *)
Lemma resolve_no_group rs i j ri rj :
  i <> j ->
  resolve_ambiguous_matches rs !! i = Some ri ->
  resolve_ambiguous_matches rs !! j = Some rj ->
  in_group (latin ri) ri = true -> in_group (latin ri) rj = true -> False.
Proof.
  intros Hij Hi Hj Hgi Hgj.
  destruct (rs !! i) as [ri0|] eqn:Hi0;
    [|apply lookup_ge_None in Hi0; apply lookup_lt_Some in Hi;
      rewrite resolve_length in Hi; lia].
  destruct (rs !! j) as [rj0|] eqn:Hj0;
    [|apply lookup_ge_None in Hj0; apply lookup_lt_Some in Hj;
      rewrite resolve_length in Hj; lia].
  rewrite (resolve_row _ _ _ Hi0) in Hi. rewrite (resolve_row _ _ _ Hj0) in Hj.
  injection Hi as <-. injection Hj as <-.
  destruct (marked _ i) eqn:Hmi; simpl in *; [done|].
  destruct (marked _ j) eqn:Hmj; simpl in *; [done|].
  assert (marked (map_to_list (higher_level_matches rs)) i = true); [|congruence].
  apply (marked_iff _ _ _ Hi0). split; [done|]. exists j, rj0. auto.
Qed.

(** X1. The docstring's other half: a row whose latin is empty is left as
    it was, and so is a row whose latin no other row with a level among
    genus, family, order, class shares. *)
Theorem ambiguity_pass_keeps_unique (rs : list result) (i : nat) (r : result)
    (Hi : rs !! i = Some r)
    (Huniq : latin r = ""
             \/ forall j rj, j <> i -> rs !! j = Some rj ->
                   is_higher (match_level rj) = true -> latin rj <> latin r) :
  resolve_ambiguous_matches rs !! i = Some r.
Proof.
  rewrite (resolve_row _ _ _ Hi).
  destruct (marked _ i) eqn:Hm; [|done]. exfalso.
  apply (marked_iff _ _ _ Hi) in Hm as (Hgi & j & rj & Hne & Hrj & Hg).
  destruct Huniq as [Hempty|Huniq].
  - by apply in_group_higher in Hgi as [_ ?].
  - apply (Huniq j rj Hne Hrj).
    + by apply in_group_higher in Hg as [? _].
    + by apply in_group_latin.
Qed.

Lemma ambiguity_pass_keeps_unique_witness :
  resolve_ambiguous_matches
    [mk_result "vulpes" "fox genus" "" "kit fox" "kit fox" (Some Genus);
     mk_result "ursus" "bear genus" "" "teddy" "teddy" (Some Genus);
     mk_result "vulpes" "fox genus" "vulpes" "" "vulpes" None] !! 0
  = Some (mk_result "vulpes" "fox genus" "" "kit fox" "kit fox" (Some Genus))
  /\ resolve_ambiguous_matches
       [mk_result "" "" "" "a" "a" (Some Genus);
        mk_result "" "" "" "b" "b" (Some Genus)] !! 1
     = Some (mk_result "" "" "" "b" "b" (Some Genus)).
Proof.
  split.
  - apply ambiguity_pass_keeps_unique; [reflexivity|]. right.
    intros [|[|[|j]]] rj Hne Hrj Hh; simpl in Hrj; simplify_eq; done.
  - apply ambiguity_pass_keeps_unique; [reflexivity|]. by left.
Defined.

(** X2. After the pass no latin is claimed twice at a higher level: two
    distinct rows of the output never both carry a level among genus,
    family, order, class and the same non-empty latin. *)
Theorem ambiguity_pass_leaves_no_collision (rs : list result) (i j : nat)
    (ri rj : result)
    (Hij : i <> j)
    (Hi : resolve_ambiguous_matches rs !! i = Some ri)
    (Hj : resolve_ambiguous_matches rs !! j = Some rj)
    (Hhi : is_higher (match_level ri) = true)
    (Hhj : is_higher (match_level rj) = true)
    (Hne : latin ri <> "") :
  latin rj <> latin ri.
Proof.
  intros Heq. apply (resolve_no_group rs i j ri rj Hij Hi Hj).
  - by apply in_group_intro.
  - rewrite <- Heq. apply in_group_intro; [done|]. by rewrite Heq.
Qed.

Lemma ambiguity_pass_leaves_no_collision_witness :
  latin (mk_result "ursus" "bear genus" "" "teddy" "teddy" (Some Genus))
  <> latin (mk_result "vulpes" "fox genus" "" "kit fox" "kit fox" (Some Genus)).
Proof.
  apply (ambiguity_pass_leaves_no_collision
           [mk_result "vulpes" "fox genus" "" "kit fox" "kit fox" (Some Genus);
            mk_result "ursus" "bear genus" "" "teddy" "teddy" (Some Genus)]
           0 1);
    [lia|reflexivity|reflexivity|reflexivity|reflexivity|discriminate].
Defined.

(** X3. Running the ambiguity pass on its own output changes nothing. *)
Theorem ambiguity_pass_idempotent (rs : list result) :
  resolve_ambiguous_matches (resolve_ambiguous_matches rs)
  = resolve_ambiguous_matches rs.
Proof.
  apply list_eq. intros i.
  destruct (resolve_ambiguous_matches rs !! i) as [r|] eqn:Hi.
  - rewrite (resolve_row _ _ _ Hi).
    destruct (marked _ i) eqn:Hm; [|done]. exfalso.
    apply (marked_iff _ _ _ Hi) in Hm as (Hg & j & rj & Hne & Hrj & Hgj).
    exact (resolve_no_group rs i j r rj (not_eq_sym Hne) Hi Hrj Hg Hgj).
  - apply lookup_ge_None. rewrite resolve_length. by apply lookup_ge_None.
Qed.

(** ** The pipeline, completed *)

Lemma first_pass_queue t lines i line r :
  (i, line, r) ∈ snd (first_pass t lines)
  <-> exists raw, lines !! i = Some raw /\ line = strip raw
                  /\ nonempty line = true
                  /\ r = match_single_line_exact t line /\ latin r = "".
Proof.
  revert i line r.
  induction lines as [|x lines IH] using rev_ind; intros i line r.
  - split; [by intros ?%elem_of_nil|by intros (raw & ? & _)].
  - rewrite first_pass_snoc.
    destruct (first_pass t lines) as [results unknown_lines] eqn:Hfp.
    simpl in IH. unfold first_pass_step.
    assert (Hold : (i, line, r) ∈ unknown_lines ->
              exists raw, (lines ++ [x]) !! i = Some raw /\ line = strip raw
                          /\ nonempty line = true
                          /\ r = match_single_line_exact t line /\ latin r = "").
    { intros (raw & Hraw & H)%IH. exists raw. split; [|done].
      by apply lookup_app_l_Some. }
    destruct (nonempty (strip x)) eqn:Hx; simpl.
    + destruct (nonempty (latin (match_single_line_exact t (strip x)))) eqn:Hl; simpl.
      * split; [done|].
        intros (raw & [[Hlt Hraw]|[-> ->]]%lookup_snoc_Some & -> & Hn & -> & Hlat).
        -- apply IH. eauto 10.
        -- apply nonempty_false in Hlat. congruence.
      * rewrite elem_of_app, list_elem_of_singleton. split.
        -- intros [H|[= -> -> ->]]; [by apply Hold|].
           exists x. rewrite lookup_snoc_Some.
           apply nonempty_false in Hl. eauto 10.
        -- intros (raw & [[Hlt Hraw]|[-> ->]]%lookup_snoc_Some & -> & Hn & -> & Hlat).
           ++ left. apply IH. eauto 10.
           ++ by right.
    + split; [done|].
      intros (raw & [[Hlt Hraw]|[-> ->]]%lookup_snoc_Some & -> & Hn & -> & Hlat).
      * apply IH. eauto 10.
      * congruence.
Qed.

Lemma first_pass_nothing_queued t lines :
  Forall (fun r => latin r <> "") (fst (first_pass t lines)) ->
  snd (first_pass t lines) = [].
Proof.
  intros HF. destruct (snd (first_pass t lines)) as [|[[i line] r] l] eqn:Hs; [done|].
  exfalso.
  assert (Hin : (i, line, r) ∈ snd (first_pass t lines))
    by (rewrite Hs; apply elem_of_cons; by left).
  apply first_pass_queue in Hin as (raw & Hraw & -> & Hn & -> & Hlat).
  rewrite first_pass_results in HF.
  rewrite Forall_forall in HF. apply (HF (match_single_line_exact t (strip raw))); [|done].
  apply list_elem_of_fmap. exists (strip raw). split; [done|].
  apply list_elem_of_In, filter_In. split; [|done].
  apply list_elem_of_In, list_elem_of_fmap. exists raw. split; [done|].
  apply list_elem_of_lookup. eauto.
Qed.

Lemma resolve_no_higher rs :
  Forall (fun r => is_higher (match_level r) = false) rs ->
  resolve_ambiguous_matches rs = rs.
Proof.
  intros HF. apply list_eq. intros i.
  destruct (rs !! i) as [r|] eqn:Hi.
  - rewrite (resolve_row _ _ _ Hi).
    destruct (marked _ i) eqn:Hm; [|done]. exfalso.
    apply (marked_iff _ _ _ Hi) in Hm as [[Hh _]%in_group_higher _].
    rewrite (Forall_lookup_1 _ _ _ _ HF Hi) in Hh. done.
  - apply lookup_ge_None. rewrite resolve_length. by apply lookup_ge_None.
Qed.

Lemma first_pass_no_level t lines :
  Forall (fun r => is_higher (match_level r) = false) (fst (first_pass t lines)).
Proof.
  rewrite first_pass_results. apply Forall_fmap, Forall_forall.
  intros line _. simpl. by rewrite match_level_exact.
Qed.

Lemma updated_original t r r' :
  updated t r r' ->
  original_latin r' = original_latin r /\ original_common r' = original_common r.
Proof. by intros [->|(_ & e & lvl & _ & ->)]. Qed.

Lemma retracted_original r r' :
  retracted r r' ->
  original_latin r' = original_latin r /\ original_common r' = original_common r.
Proof. by intros [->| ->]. Qed.

Section PipelineExtras.

Variable json_loads : string -> option pyval.
Variable GenerativeModel : string -> option llm.

(** X4. A line is queued for the model exactly when it is not blank and
    the exact parser leaves it unresolved; it is queued with its position
    in the input, its trimmed text and the parser's row. *)
Theorem unresolved_lines_are_queued (t : TaxonomyLoader) (lines : list string)
    (i : nat) (line : string) (r : result) :
  (i, line, r) ∈ snd (first_pass t lines)
  <-> exists raw, lines !! i = Some raw /\ line = strip raw /\ line <> ""
                  /\ r = match_single_line_exact t line /\ latin r = "".
Proof.
  rewrite first_pass_queue. split; intros (raw & H1 & H2 & H3 & H4); exists raw;
    (split; [done|]); (split; [done|]); (split; [|done]);
    by apply nonempty_true.
Qed.

(** X5. When there is neither a configured model nor a caller's key, or when
    the exact parser resolves every line, the pipeline returns exactly the
    rows of the exact parser for the trimmed non-blank lines: the model and
    the decoder play no part. *)
Theorem exact_only_pipeline (m : Matcher) (input_text : string)
    (location user_api_key : option string)
    (H : (model m = None /\ given user_api_key = false)
         \/ Forall (fun line =>
                      latin (match_single_line_exact (taxonomy m) line) <> "")
              (List.filter nonempty (strip <$> splitlines input_text))) :
  process_input json_loads GenerativeModel m input_text location user_api_key
  = match_single_line_exact (taxonomy m)
      <$> List.filter nonempty (strip <$> splitlines input_text).
Proof.
  unfold process_input.
  assert (Hsame : results_before_pass3 json_loads GenerativeModel m input_text
                    location user_api_key
                  = fst (first_pass (taxonomy m) (splitlines input_text))).
  { unfold results_before_pass3.
    destruct H as [[Hm Hk]|HF].
    - destruct (first_pass _ _) as [results unknown_lines]. simpl.
      rewrite Hm, Hk. simpl. by rewrite andb_false_r.
    - assert (HF' : Forall (fun r => latin r <> "")
                     (fst (first_pass (taxonomy m) (splitlines input_text))))
        by (rewrite first_pass_results; by apply Forall_fmap).
      clear HF. rename HF' into HF.
      apply first_pass_nothing_queued in HF.
      destruct (first_pass _ _) as [results unknown_lines]. simpl in *.
      by rewrite HF. }
  rewrite Hsame, resolve_no_higher by apply first_pass_no_level.
  apply first_pass_results.
Qed.

(** X6. An exact match is final: a row that the exact parser resolves is
    returned by the pipeline unchanged, at its position, whatever the model
    answers. *)
Theorem exact_match_is_final (m : Matcher) (input_text : string)
    (location user_api_key : option string) (i : nat) (r : result)
    (Hi : (match_single_line_exact (taxonomy m)
             <$> List.filter nonempty (strip <$> splitlines input_text)) !! i
          = Some r)
    (Hr : latin r <> "") :
  process_input json_loads GenerativeModel m input_text location user_api_key !! i
  = Some r.
Proof.
  rewrite <- first_pass_results in Hi.
  destruct (Forall2_lookup_l _ _ _ _ _
              (second_pass_updated json_loads GenerativeModel m input_text
                 location user_api_key) Hi) as (r' & Hr' & [->|[Hl _]]);
    [|congruence].
  unfold process_input. rewrite (resolve_row _ _ _ Hr').
  destruct (marked _ i) eqn:Hm; [|done]. exfalso.
  apply (marked_iff _ _ _ Hr') in Hm as [[Hh _]%in_group_higher _].
  pose proof (Forall_lookup_1 _ _ _ _
                (first_pass_no_level (taxonomy m) (splitlines input_text)) Hi) as Hn.
  simpl in Hn. congruence.
Qed.

(** X7. The echo fields are the parser's: in every row the pipeline returns,
    original_latin and original_common are those the exact parser computes
    for the row's raw_input; passes 2 and 3 never touch them. *)
Theorem echo_fields_are_the_parsers (m : Matcher) (input_text : string)
    (location user_api_key : option string) (r : result)
    (Hr : r ∈ process_input json_loads GenerativeModel m input_text
                location user_api_key) :
  original_latin r
  = original_latin (match_single_line_exact (taxonomy m) (raw_input r))
  /\ original_common r
     = original_common (match_single_line_exact (taxonomy m) (raw_input r)).
Proof.
  apply list_elem_of_lookup in Hr as [i Hi]. unfold process_input in Hi.
  destruct (Forall2_lookup_r _ _ _ _ _ (resolve_retracted _) Hi) as (r1 & Hr1 & H1).
  destruct (Forall2_lookup_r _ _ _ _ _
              (second_pass_updated json_loads GenerativeModel m input_text
                 location user_api_key) Hr1) as (r0 & Hr0 & H0).
  rewrite first_pass_results in Hr0.
  apply list_lookup_fmap_Some in Hr0 as (line & -> & _).
  rewrite (retracted_raw_input _ _ H1), (updated_raw_input _ _ _ H0), raw_input_exact.
  destruct (retracted_original _ _ H1) as [-> ->].
  by destruct (updated_original _ _ _ H0) as [-> ->].
Qed.

End PipelineExtras.

(** ** Levels and where they come from *)

Lemma try_rank_found t o e :
  try_rank t o = Some e -> exists s, get_by_latin t s = Some e.
Proof.
  destruct o as [s|]; simpl; [|done]. destruct (nonempty s); [eauto|done].
Qed.

Lemma get_by_hierarchy_found t c o f g s e l :
  get_by_hierarchy t c o f g s = (Some e, l) ->
  exists lv, l = Some lv /\ found_by t lv e.
Proof.
  unfold get_by_hierarchy. cbv zeta.
  assert (Hsp : forall k, (if given (norm_rank g) && given (norm_rank s)
                           then get_by_latin t k else None) = Some e ->
                          exists s', get_by_latin t s' = Some e).
  { intros k. destruct (_ && _); [eauto|done]. }
  destruct (if given (norm_rank g) && given (norm_rank s) then _ else None) eqn:H5;
    [intros [= <- <-]; exists Species; unfold found_by; simpl; eauto 10|].
  destruct (try_rank t (norm_rank g)) eqn:H4;
    [intros [= <- <-]; exists Genus; unfold found_by; simpl;
     apply try_rank_found in H4; eauto 10|].
  destruct (try_rank t (norm_rank f)) eqn:H3;
    [intros [= <- <-]; exists Family; unfold found_by; simpl;
     apply try_rank_found in H3; eauto 10|].
  destruct (try_rank t (norm_rank o)) eqn:H2;
    [intros [= <- <-]; exists Order; unfold found_by; simpl;
     apply try_rank_found in H2; eauto 10|].
  destruct (try_rank t (norm_rank c)) eqn:H1;
    [intros [= <- <-]; exists Class; unfold found_by; simpl;
     apply try_rank_found in H1; eauto 10|].
  done.
Qed.

Lemma match_candidates_found t candidates e l :
  match_candidates t candidates = Ok (Some e, l) ->
  exists lv, l = Some lv /\ found_by t lv e.
Proof.
  induction candidates as [|candidate rest IH]; simpl; [done|].
  destruct (negb (py_truthy candidate)); [done|].
  intros H. exc_inv H.
  destruct (get_by_hierarchy t v4 v5 v6 v7 v8) as [[e'|] l'] eqn:Hh; [|by apply IH].
  injection H as <- <-.
  apply get_by_hierarchy_found in Hh as (lv & -> & Hf). eauto.
Qed.

Lemma updated_lv_trans t r1 r2 r3 :
  updated_lv t r1 r2 -> updated_lv t r2 r3 -> updated_lv t r1 r3.
Proof.
  intros [->|(Hl & e & lv & He & ->)] [->|(Hl' & e' & lv' & He' & ->)];
    [by left|right|right|right]; eauto 10.
Qed.

Lemma process_item_lv t item rs rs' :
  process_item t item rs = Ok rs' -> Forall2 (updated_lv t) rs rs'.
Proof.
  unfold process_item. intros H. exc_inv H.
  destruct (py_truthy v) eqn:Ht; simpl in H;
    [|injection H as <-; apply Forall_Forall2_diag, Forall_forall; by left].
  exc_inv H. injection H as <-.
  assert (Hm : forall e l, v5 = (Some e, l) -> exists lv, l = Some lv /\ found_by t lv e).
  { intros e l ->. destruct v4 as [[e'|] l'].
    - injection Hv5 as <- <-. by eapply match_candidates_found.
    - exc_inv Hv5. destruct (py_truthy v4); [|done].
      exc_inv Hv5. destruct (get_by_common t v5) as [e'|] eqn:Hc; [|done].
      injection Hv5 as <- <-. exists CommonNameFallback. split; [done|].
      right. eauto. }
  apply Forall2_same_length_lookup. split; [by rewrite write_back_length|].
  intros i r r' Hr Hr'. destruct (decide (r' = r)) as [->|Hne]; [by left|].
  destruct (write_back_lookup _ _ _ _ _ _ Hr Hr' Hne) as (_ & Hl & _ & e & lvl & -> & ->).
  destruct (Hm e lvl eq_refl) as (lv & -> & Hf).
  right. split; [done|]. by exists e, lv.
Qed.

Lemma process_items_lv t data rs :
  Forall2 (updated_lv t) rs (snd (process_items t data rs)).
Proof.
  revert rs. induction data as [|item data IH]; intros rs; simpl.
  - apply Forall_Forall2_diag, Forall_forall. by left.
  - destruct (process_item t item rs) as [rs1|] eqn:Hi; simpl.
    + eapply Forall2_trans; [apply updated_lv_trans| |apply IH].
      exact (process_item_lv _ _ _ _ Hi).
    + apply Forall_Forall2_diag, Forall_forall. by left.
Qed.

Section Levels.

Variable json_loads : string -> option pyval.
Variable GenerativeModel : string -> option llm.

Lemma second_pass_lv m input_text location user_api_key :
  Forall2 (updated_lv (taxonomy m))
    (fst (first_pass (taxonomy m) (splitlines input_text)))
    (results_before_pass3 json_loads GenerativeModel m input_text
       location user_api_key).
Proof.
  assert (Hrefl : forall rs, Forall2 (updated_lv (taxonomy m)) rs rs)
    by (intros rs; apply Forall_Forall2_diag, Forall_forall; by left).
  unfold results_before_pass3.
  destruct (first_pass (taxonomy m) (splitlines input_text))
    as [results unknown_lines]. simpl.
  destruct (_ && _); [|done].
  unfold batch_process_with_gemini.
  destruct (if given user_api_key then _ else _) as [g|]; [|done].
  unfold try_block.
  destruct (g _); [|done]. destruct (json_loads _); [|done].
  destruct (py_iter _); [|done]. apply process_items_lv.
Qed.

Lemma pipeline_rows m input_text location user_api_key r :
  r ∈ process_input json_loads GenerativeModel m input_text location user_api_key ->
  row_of_line (taxonomy m) (raw_input r) r.
Proof.
  intros [i Hi]%list_elem_of_lookup. unfold process_input in Hi.
  destruct (results_before_pass3 json_loads GenerativeModel m input_text
              location user_api_key !! i) as [r1|] eqn:Hr1;
    [|apply lookup_ge_None in Hr1; apply lookup_lt_Some in Hi;
      rewrite resolve_length in Hi; lia].
  destruct (Forall2_lookup_r _ _ _ _ _
              (second_pass_lv m input_text location user_api_key) Hr1)
    as (r0 & Hr0 & H0).
  rewrite first_pass_results in Hr0.
  apply list_lookup_fmap_Some in Hr0 as (line & -> & _).
  rewrite (resolve_row _ _ _ Hr1) in Hi. injection Hi as <-.
  unfold row_of_line. cbv zeta.
  destruct (marked _ i) eqn:Hm; simpl.
  - apply (marked_iff _ _ _ Hr1) in Hm as [[Hh _]%in_group_higher _].
    destruct H0 as [->|(Hl & e & lv & Hf & ->)].
    + by rewrite match_level_exact in Hh.
    + simpl. rewrite raw_input_exact. right; right. split; [done|].
      exists e, lv. done.
  - destruct H0 as [->|(Hl & e & lv & Hf & ->)].
    + rewrite raw_input_exact. by left.
    + simpl. rewrite raw_input_exact. right; left. split; [done|].
      by exists e, lv.
Qed.

(** X8. Every row the pipeline returns is made from the exact parser's row
    for its raw_input in one of three ways: it is that row; or that row was
    unresolved and has been filled with the latin and common of an entry,
    with a level that says which lookup found the entry (a rank for the
    Latin index, common_name_fallback for the common-name index); or it is
    such a filled row, of level genus, family, order or class, retracted. *)
Theorem pipeline_row_provenance (m : Matcher) (input_text : string)
    (location user_api_key : option string) (r : result)
    (Hr : r ∈ process_input json_loads GenerativeModel m input_text
                location user_api_key) :
  row_of_line (taxonomy m) (raw_input r) r.
Proof. by eapply pipeline_rows. Qed.

(** X9. On a loaded index the level of a returned row tells whether it is
    resolved: level ambiguous goes with empty latin and common, every other
    level with a non-empty latin. *)
Theorem level_tells_resolution (file : option (list string)) (g : option llm)
    (input_text : string) (location user_api_key : option string)
    (r : result) (lv : level)
    (Hr : r ∈ process_input json_loads GenerativeModel
                (mk_matcher (load file) g) input_text location user_api_key)
    (Hlv : match_level r = Some lv) :
  (lv = Ambiguous -> latin r = "" /\ common r = "")
  /\ (lv <> Ambiguous -> latin r <> "").
Proof.
  apply pipeline_rows in Hr. unfold row_of_line in Hr. cbv zeta in Hr.
  simpl taxonomy in Hr.
  destruct Hr as [Hr|[(_ & e & lv' & Hf & Hr)|(_ & e & lv' & Hf & _ & Hr)]];
    rewrite Hr in *; clear Hr.
  - by rewrite match_level_exact in Hlv.
  - simpl in *. injection Hlv as ->. split.
    + intros ->. destruct Hf as [[Hrk _]|[? _]]; done.
    + intros _. apply (from_index_latin_nonempty file).
      destruct Hf as [[_ [s Hs]]|[_ [s Hs]]];
        [by eapply get_by_latin_from_index|by eapply get_by_common_from_index].
  - simpl in *. injection Hlv as <-. split; done.
Qed.

End Levels.

(** ** The index, completed *)

Lemma load_line_key t raw :
  load_line t raw
  = match row_key raw with
    | None => t
    | Some l =>
        {| latin_to_row := <[l := row_entry raw l]> (latin_to_row t);
           valid_latin_names := {[l]} ∪ valid_latin_names t;
           common_to_row :=
             if nonempty (part (split ";" (strip raw)) 6)
             then <[lower (part (split ";" (strip raw)) 6) := row_entry raw l]>
                    (common_to_row t)
             else common_to_row t |}
    end.
Proof.
  unfold load_line, row_key, row_entry. cbv zeta.
  destruct (negb (nonempty (strip raw))); [done|].
  destruct (length (split ";" (strip raw)) <? 7); [done|].
  by destruct (construct_latin _).
Qed.

Lemma load_snoc lines raw :
  load (Some (lines ++ [raw])) = load_line (load (Some lines)) raw.
Proof. simpl. by rewrite foldl_app. Qed.

Lemma load_app lines1 lines2 :
  load (Some (lines1 ++ lines2)) = foldl load_line (load (Some lines1)) lines2.
Proof. simpl. by rewrite foldl_app. Qed.

Lemma foldl_load_line_keeps l lines : forall t,
  Forall (fun raw => row_key raw <> Some l) lines ->
  latin_to_row (foldl load_line t lines) !! l = latin_to_row t !! l.
Proof.
  induction lines as [|raw lines IH]; intros t HF; simpl; [done|].
  apply Forall_cons in HF as [Hraw HF]. rewrite IH by done.
  rewrite load_line_key. destruct (row_key raw) as [l'|]; [|done].
  simpl. apply lookup_insert_ne. congruence.
Qed.

Lemma norm_rank_normalize o : norm_rank o = normalize <$> o.
Proof.
  destruct o as [s|]; simpl; [|done].
  destruct s; [done|]. simpl. done.
Qed.

Lemma given_norm_rank o :
  given (norm_rank o) = nonempty (normalize (default "" o)).
Proof. rewrite norm_rank_normalize. by destruct o. Qed.

Lemma lstrip_fixed s : nonempty (lstrip s) = true \/ lstrip s = "".
Proof. destruct (lstrip s); [by right|by left]. Qed.

Lemma lower_normalize x : lower (normalize x) = normalize x.
Proof. unfold normalize. rewrite (strip_lower x). apply lower_idem. Qed.

Lemma rstrip_normalize x : rstrip (normalize x) = normalize x.
Proof. unfold normalize. apply rstrip_strip. Qed.

Lemma lstrip_normalize x : lstrip (normalize x) = normalize x.
Proof. unfold normalize. apply lstrip_strip. Qed.

Lemma normalize_pair a b :
  normalize a <> "" -> normalize b <> "" ->
  normalize (normalize a +:+ " " +:+ normalize b)
  = normalize a +:+ " " +:+ normalize b.
Proof.
  intros Ha Hb. apply normalize_fixed.
  - by rewrite !lower_app, !lower_normalize.
  - unfold strip.
    assert (Hr : rstrip (normalize a +:+ " " +:+ normalize b)
                 = normalize a +:+ " " +:+ normalize b).
    { rewrite (rstrip_app_fixed (normalize a) (" " +:+ normalize b)).
      - done.
      - done.
      - change (" " +:+ normalize b) with (String " " (normalize b)).
        simpl. rewrite rstrip_normalize.
        apply nonempty_true in Hb. by rewrite Hb. }
    rewrite Hr. apply lstrip_app_fixed; [done|].
    apply lstrip_normalize.
Qed.

(** X10. On a loaded index a lookup returns a matching entry: the latin of
    the entry [get_by_latin] returns is the lowercased, trimmed query, and
    the lowercased common name of the entry [get_by_common] returns is the
    lowercased, trimmed query. *)
Theorem lookup_returns_matching_entry (file : option (list string))
    (s : string) (e : entry) :
  (get_by_latin (load file) s = Some e -> entry_latin e = normalize s)
  /\ (get_by_common (load file) s = Some e ->
      lower (entry_common e) = normalize s /\ entry_common e <> "").
Proof.
  destruct (load_ok file) as [HL HC]. unfold get_by_latin, get_by_common.
  fold (normalize s). split.
  - by intros (_ & ->)%HL.
  - by intros (_ & -> & ?)%HC.
Qed.

(** X11. A row stays in the Latin index until a later row constructs the
    same Latin name: if a line of the file is stored under a key and no
    later line is stored under that key, the entry found under the key
    after loading is the one built from that line; when the key is trimmed
    [get_by_latin] finds it.  In particular the last of several rows with
    one Latin name wins. *)
Theorem later_duplicate_overwrites (before after : list string) (raw l : string)
    (Hkey : row_key raw = Some l)
    (Hafter : Forall (fun raw' => row_key raw' <> Some l) after) :
  let t := load (Some (before ++ raw :: after)) in
  latin_to_row t !! l = Some (row_entry raw l)
  /\ (strip l = l -> get_by_latin t l = Some (row_entry raw l)).
Proof.
  simpl.
  assert (H : latin_to_row (foldl load_line empty_taxonomy (before ++ raw :: after)) !! l
              = Some (row_entry raw l)).
  { rewrite foldl_app. simpl. rewrite foldl_load_line_keeps by done.
    rewrite load_line_key, Hkey. simpl. apply lookup_insert_eq. }
  split; [done|]. intros Hs. unfold get_by_latin.
  assert (Hlow : lower l = l).
  { unfold row_key in Hkey. cbv zeta in Hkey.
    destruct (negb _); [done|]. destruct (_ <? 7); [done|].
    by eapply construct_latin_lowered. }
  simpl. by rewrite Hlow, Hs.
Qed.

Lemma later_duplicate_overwrites_witness :
  get_by_latin
    (load (Some (["g1;Mammalia;Carnivora;Ursidae;Ursus;arctos;Brown Bear"]
                 ++ "g9;Mammalia;Carnivora;Ursidae;Ursus;arctos;Grizzly"
                 :: ["g2;Mammalia;Carnivora;Ursidae;Ursus;;bear genus"])))
    "ursus arctos"
  = Some (row_entry "g9;Mammalia;Carnivora;Ursidae;Ursus;arctos;Grizzly"
            "ursus arctos").
Proof.
  refine (proj2 (later_duplicate_overwrites _ _ _ "ursus arctos" _ _) _).
  - reflexivity.
  - repeat constructor. discriminate.
  - reflexivity.
Defined.

(** X12. The set [valid_latin_names] always holds exactly the keys of the
    Latin index. *)
Theorem valid_latin_names_are_the_keys (file : option (list string)) :
  valid_latin_names (load file) = dom (latin_to_row (load file)).
Proof.
  apply (load_ind (fun t => valid_latin_names t = dom (latin_to_row t))).
  - simpl. by rewrite dom_empty_L.
  - intros t raw IH. rewrite load_line_key.
    destruct (row_key raw) as [l|]; [|done].
    simpl. by rewrite dom_insert_L, IH.
Qed.

(** X13. A file in which no line is stored (every line is blank, has fewer
    than seven fields, or has its five rank fields empty) gives the same
    empty index as a missing file; on that index the exact parser resolves
    no line and the hierarchy walk finds nothing. *)
Theorem nothing_loaded_nothing_found (lines : list string)
    (Hnone : Forall (fun raw => row_key raw = None) lines) :
  load (Some lines) = load None
  /\ (forall line, latin (match_single_line_exact (load None) line) = ""
                   /\ common (match_single_line_exact (load None) line) = "")
  /\ (forall c o f g s, get_by_hierarchy (load None) c o f g s = (None, None)).
Proof.
  split; [|split].
  - simpl. generalize empty_taxonomy.
    induction Hnone as [|raw lines Hraw _ IH]; intros t; simpl; [done|].
    by rewrite load_line_key, Hraw, IH.
  - intros line.
    destruct (canonical_exact (load None) line)
      as [H|(e & [k [Hk|Hk]] & _)]; [done|..];
      simpl in Hk; by rewrite lookup_empty in Hk.
  - intros c o f g s.
    destruct (get_by_hierarchy (load None) c o f g s) as [[e|] l] eqn:H.
    + apply get_by_hierarchy_from_index in H as [k [Hk|Hk]];
        simpl in Hk; by rewrite lookup_empty in Hk.
    + unfold get_by_hierarchy in H. cbv zeta in H.
      repeat (case_match; try done).
Qed.

Lemma nothing_loaded_nothing_found_witness :
  load (Some [""; "   "; "g1;Mammalia;Carnivora"; "g2;;;;;;no ranks"]) = load None.
Proof.
  apply (nothing_loaded_nothing_found
           [""; "   "; "g1;Mammalia;Carnivora"; "g2;;;;;;no ranks"]).
  repeat constructor.
Defined.

(** X14. The hierarchy walk does not see case or surrounding white space in
    its arguments: it gives the same result on the lowercased, trimmed
    rank strings. *)
Theorem hierarchy_normalizes_arguments (t : TaxonomyLoader)
    (c o f g s : option string) :
  get_by_hierarchy t c o f g s
  = get_by_hierarchy t (normalize <$> c) (normalize <$> o) (normalize <$> f)
      (normalize <$> g) (normalize <$> s).
Proof.
  unfold get_by_hierarchy. cbv zeta.
  assert (H : forall x, norm_rank (normalize <$> x) = norm_rank x).
  { intros [x|]; [|done]. rewrite !norm_rank_normalize. simpl.
    by rewrite normalize_idem. }
  by rewrite !H.
Qed.

(** X15. On a loaded index the entry the hierarchy walk returns is the one
    asked for at the level it reports: at level species its latin is the
    normalized genus, a space and the normalized species; at level genus,
    family, order or class its latin is the normalized field of that rank.
    The level is always one of these five. *)
Theorem hierarchy_returns_requested_entry (file : option (list string))
    (c o f g s : option string) (e : entry) (l : option level)
    (H : get_by_hierarchy (load file) c o f g s = (Some e, l)) :
  exists lv, l = Some lv /\ rank lv <> 0
             /\ entry_latin e = rank_key c o f g s lv.
Proof.
  destruct (load_ok file) as [HL _].
  assert (Hlat : forall k e', get_by_latin (load file) k = Some e' ->
                              entry_latin e' = normalize k).
  { intros k e'. unfold get_by_latin. fold (normalize k). by intros (_ & ->)%HL. }
  assert (Htry : forall x e', try_rank (load file) (norm_rank x) = Some e' ->
                              entry_latin e' = normalize (default "" x)).
  { intros x e'. rewrite norm_rank_normalize.
    destruct x as [x|]; simpl; [|done].
    destruct (nonempty (normalize x)); [|done].
    intros ->%Hlat. apply normalize_idem. }
  revert H. unfold get_by_hierarchy. cbv zeta.
  destruct (given (norm_rank g) && given (norm_rank s)) eqn:Hgs.
  - apply andb_true_iff in Hgs as [Hg Hs].
    rewrite given_norm_rank in Hg, Hs.
    apply nonempty_true in Hg, Hs.
    replace (default "" (norm_rank g)) with (normalize (default "" g))
      by (rewrite norm_rank_normalize; by destruct g).
    replace (default "" (norm_rank s)) with (normalize (default "" s))
      by (rewrite norm_rank_normalize; by destruct s).
    destruct (get_by_latin (load file) _) as [e5|] eqn:H5.
    { intros [= <- <-]. exists Species. split; [done|]. split; [done|].
      apply Hlat in H5. rewrite H5. simpl. by apply normalize_pair. }
    destruct (try_rank (load file) (norm_rank g)) eqn:H4;
      [intros [= <- <-]; exists Genus; simpl; eauto|].
    destruct (try_rank (load file) (norm_rank f)) eqn:H3;
      [intros [= <- <-]; exists Family; simpl; eauto|].
    destruct (try_rank (load file) (norm_rank o)) eqn:H2;
      [intros [= <- <-]; exists Order; simpl; eauto|].
    destruct (try_rank (load file) (norm_rank c)) eqn:H1;
      [intros [= <- <-]; exists Class; simpl; eauto|].
    done.
  - destruct (try_rank (load file) (norm_rank g)) eqn:H4;
      [intros [= <- <-]; exists Genus; simpl; eauto|].
    destruct (try_rank (load file) (norm_rank f)) eqn:H3;
      [intros [= <- <-]; exists Family; simpl; eauto|].
    destruct (try_rank (load file) (norm_rank o)) eqn:H2;
      [intros [= <- <-]; exists Order; simpl; eauto|].
    destruct (try_rank (load file) (norm_rank c)) eqn:H1;
      [intros [= <- <-]; exists Class; simpl; eauto|].
    done.
Qed.

Lemma hierarchy_returns_requested_entry_witness :
  exists lv, Some Species = Some lv /\ rank lv <> 0
             /\ entry_latin
                  (mk_entry "ursus arctos" "Brown Bear"
                     ["g1"; "Mammalia"; "Carnivora"; "Ursidae"; "Ursus"; "arctos";
                      "Brown Bear"])
                = rank_key None None None (Some " URSUS") (Some "Arctos ") lv.
Proof.
  apply (hierarchy_returns_requested_entry (Some bear_file)
           None None None (Some " URSUS") (Some "Arctos ")).
  vm_compute. reflexivity.
Defined.

(** X16. A species without a genus is ignored: when the genus is absent or
    blank the walk gives the result it gives without the species, and that
    result is never at level species or genus. *)
Theorem species_needs_genus (t : TaxonomyLoader) (c o f g s : option string)
    (Hg : normalize (default "" g) = "") :
  get_by_hierarchy t c o f g s = get_by_hierarchy t c o f None None
  /\ snd (get_by_hierarchy t c o f g s) <> Some Species
  /\ snd (get_by_hierarchy t c o f g s) <> Some Genus.
Proof.
  assert (Hgiven : given (norm_rank g) = false)
    by (rewrite given_norm_rank, Hg; done).
  assert (Htry : try_rank t (norm_rank g) = None).
  { rewrite norm_rank_normalize. destruct g as [x|]; simpl in *; [|done].
    by rewrite Hg. }
  unfold get_by_hierarchy. cbv zeta. rewrite Hgiven, Htry. simpl.
  split; [done|].
  repeat (destruct (try_rank t _); simpl; [done|]). done.
Qed.

Lemma species_needs_genus_witness :
  get_by_hierarchy (load (Some bear_file)) None None (Some "Ursus") (Some "  ")
    (Some "arctos")
  = get_by_hierarchy (load (Some bear_file)) None None (Some "Ursus") None None.
Proof.
  apply (species_needs_genus (load (Some bear_file)) None None (Some "Ursus")
           (Some "  ") (Some "arctos")).
  reflexivity.
Defined.

(** ** The exact parser, completed *)

Lemma rev_app_append cur acc s :
  String.rev_app cur acc +:+ s = String.rev_app cur (acc +:+ s).
Proof. revert acc. induction cur as [|c cur IH]; intros acc; simpl; [done|]. by rewrite IH. Qed.

Lemma rev_snoc c cur s : String.rev (String c cur) +:+ s = String.rev cur +:+ String c s.
Proof. unfold String.rev. simpl. by rewrite !rev_app_append. Qed.

Lemma rev_app_lower cur acc :
  String.rev_app (lower cur) (lower acc) = lower (String.rev_app cur acc).
Proof.
  revert acc. induction cur as [|c cur IH]; intros acc; simpl; [done|].
  apply (IH (String c acc)).
Qed.

Lemma rev_lower cur : String.rev (lower cur) = lower (String.rev cur).
Proof. unfold String.rev. by rewrite <- rev_app_lower. Qed.

Lemma comma_lower_char c :
  (if ascii_dec "," (lower_char c) then true else false)
  = (if ascii_dec "," c then true else false).
Proof. destruct c as [[] [] [] [] [] [] [] []]; reflexivity. Qed.

Lemma startswith_char c' c s :
  startswith (String c' "") (String c s) = (if ascii_dec c' c then true else false).
Proof. cbn [startswith]. destruct (ascii_dec c' c); [by destruct s|done]. Qed.

Lemma startswith_comma_lower s : startswith "," (lower s) = startswith "," s.
Proof.
  destruct s as [|c s]; [done|].
  change (lower (String c s)) with (String (lower_char c) (lower s)).
  rewrite !startswith_char. apply comma_lower_char.
Qed.

Lemma split_comma_lower s : forall skip cur,
  split_go "," skip (lower cur) (lower s) = lower <$> split_go "," skip cur s.
Proof.
  induction s as [|c s IH]; intros skip cur.
  - cbn [lower split_go]. by rewrite rev_lower.
  - change (lower (String c s)) with (String (lower_char c) (lower s)).
    cbn [split_go]. destruct skip as [|k]; [|apply IH].
    change (String (lower_char c) (lower s)) with (lower (String c s)).
    rewrite startswith_comma_lower. destruct (startswith "," (String c s)).
    + rewrite rev_lower, fmap_cons. f_equal.
      change (String.length "," - 1) with 0.
      apply (IH 0 "").
    + apply (IH 0 (String c cur)).
Qed.

Lemma get_by_latin_lower t s : get_by_latin t (lower s) = get_by_latin t s.
Proof. unfold get_by_latin. by rewrite lower_idem. Qed.

Lemma get_by_common_lower t s : get_by_common t (lower s) = get_by_common t s.
Proof. unfold get_by_common. by rewrite lower_idem. Qed.

(** X17. The exact parser does not see letter case: the canonical latin and
    common it returns for a line are those it returns for the lowercased
    line. *)
Theorem exact_parser_ignores_case (t : TaxonomyLoader) (line : string) :
  latin (match_single_line_exact t (lower line))
  = latin (match_single_line_exact t line)
  /\ common (match_single_line_exact t (lower line))
     = common (match_single_line_exact t line).
Proof.
  assert (Hs : split "," (lower line) = lower <$> split "," line)
    by apply (split_comma_lower line 0 "").
  unfold match_single_line_exact. rewrite Hs, <- list_fmap_compose.
  rewrite (list_fmap_ext (strip ∘ lower) (lower ∘ strip) (split "," line))
    by (intros i x _; apply strip_lower).
  rewrite (list_fmap_compose strip lower).
  destruct (strip <$> split "," line) as [|p0 [|p1 rest]]; simpl.
  - done.
  - rewrite get_by_latin_lower, get_by_common_lower.
    destruct (get_by_latin t p0); [done|]. by destruct (get_by_common t p0).
  - rewrite !get_by_latin_lower, !get_by_common_lower.
    by destruct (get_by_latin t p0), (get_by_latin t p1),
                (get_by_common t p0), (get_by_common t p1).
Qed.

(** X18. Two tokens, on a loaded index: the parser leaves the line
    unresolved exactly when the two tokens are both known Latin names or
    both unknown as Latin names, and neither is a known common name.  So a
    line made of two known Latin names is unresolved.  In that case the
    first token is echoed as original_common and the second as
    original_latin. *)
Theorem two_tokens_unresolved (file : option (list string)) (line p0 p1 : string)
    (rest : list string)
    (Hparts : strip <$> split "," line = p0 :: p1 :: rest) :
  let t := load file in
  let r := match_single_line_exact t line in
  (latin r = ""
   <-> (is_Some (get_by_latin t p0) <-> is_Some (get_by_latin t p1))
       /\ get_by_common t p0 = None /\ get_by_common t p1 = None)
  /\ (latin r = "" ->
      common r = "" /\ original_common r = p0 /\ original_latin r = p1).
Proof.
  simpl. unfold match_single_line_exact. rewrite Hparts. simpl.
  pose proof (from_index_latin_nonempty file) as Hne.
  destruct (get_by_latin (load file) p0) as [e0|] eqn:H0l,
           (get_by_latin (load file) p1) as [e1|] eqn:H1l,
           (get_by_common (load file) p0) as [c0|] eqn:H0c,
           (get_by_common (load file) p1) as [c1|] eqn:H1c; simpl.
  all: try pose proof (Hne _ (get_by_latin_from_index _ _ _ H0l)) as N0.
  all: try pose proof (Hne _ (get_by_latin_from_index _ _ _ H1l)) as N1.
  all: try pose proof (Hne _ (get_by_common_from_index _ _ _ H0c)) as M0.
  all: try pose proof (Hne _ (get_by_common_from_index _ _ _ H1c)) as M1.
  all: split; [split|]; try done.
  all: try (intros (Hiff & ? & ?); try done).
  all: try (exfalso; first
              [ by (destruct (proj1 Hiff (ex_intro _ _ eq_refl)))
              | by (destruct (proj2 Hiff (ex_intro _ _ eq_refl))) ]).
  all: try (intros _; repeat split; try done; by intros [? ?]).
Qed.

Lemma two_tokens_unresolved_witness :
  latin (match_single_line_exact (load (Some bear_file)) "Ursus arctos, Ursus") = ""
  /\ original_common (match_single_line_exact (load (Some bear_file))
                        "Ursus arctos, Ursus") = "Ursus arctos".
Proof.
  destruct (two_tokens_unresolved (Some bear_file) "Ursus arctos, Ursus"
              "Ursus arctos" "Ursus" [] eq_refl) as [Hiff Hecho].
  assert (H : latin (match_single_line_exact (load (Some bear_file))
                       "Ursus arctos, Ursus") = "").
  { apply Hiff. split; [|split]; [|vm_compute; reflexivity..].
    split; intros _; vm_compute; eexists; reflexivity. }
  split; [exact H|]. by destruct (Hecho H) as (_ & ? & _).
Defined.

(** X19. Heuristic "common, Latin": when the second token is a known Latin
    name and the first is not, the row carries the entry of the second
    token, which is echoed as original_latin, and the first token is echoed
    as original_common. *)
Theorem exact_common_then_latin (t : TaxonomyLoader) (line p0 p1 : string)
    (rest : list string) (e : entry)
    (Hparts : strip <$> split "," line = p0 :: p1 :: rest)
    (H0 : get_by_latin t p0 = None)
    (H1 : get_by_latin t p1 = Some e) :
  match_single_line_exact t line
  = {| latin := entry_latin e;
       common := entry_common e;
       original_latin := p1;
       original_common := p0;
       raw_input := line;
       match_level := None |}.
Proof.
  unfold match_single_line_exact. rewrite Hparts. simpl. by rewrite H0, H1.
Qed.

Lemma exact_common_then_latin_witness :
  match_single_line_exact (load (Some bear_file)) "grizzly bear , URSUS ARCTOS"
  = {| latin := "ursus arctos";
       common := "Brown Bear";
       original_latin := "URSUS ARCTOS";
       original_common := "grizzly bear";
       raw_input := "grizzly bear , URSUS ARCTOS";
       match_level := None |}.
Proof.
  apply (exact_common_then_latin (load (Some bear_file))
           "grizzly bear , URSUS ARCTOS" "grizzly bear" "URSUS ARCTOS" []
           (mk_entry "ursus arctos" "Brown Bear"
              ["g1"; "Mammalia"; "Carnivora"; "Ursidae"; "Ursus"; "arctos";
               "Brown Bear"])).
  - reflexivity.
  - vm_compute. reflexivity.
  - vm_compute. reflexivity.
Defined.

(** X20. The common-name heuristics: when the Latin lookups do not single
    out one token (both hit or both miss), a known common name decides, the
    first token before the second.  The row carries the entry of that
    token, which is echoed as original_common; the other token is echoed as
    original_latin only if it has at most two words. *)
Theorem exact_common_name_heuristics (t : TaxonomyLoader) (line p0 p1 : string)
    (rest : list string) (e : entry)
    (Hparts : strip <$> split "," line = p0 :: p1 :: rest)
    (Hl : is_Some (get_by_latin t p0) <-> is_Some (get_by_latin t p1)) :
  (get_by_common t p0 = Some e ->
   match_single_line_exact t line
   = {| latin := entry_latin e;
        common := entry_common e;
        original_latin := if is_likely_latin p1 then p1 else "";
        original_common := p0;
        raw_input := line;
        match_level := None |})
  /\ (get_by_common t p0 = None -> get_by_common t p1 = Some e ->
      match_single_line_exact t line
      = {| latin := entry_latin e;
           common := entry_common e;
           original_latin := if is_likely_latin p0 then p0 else "";
           original_common := p1;
           raw_input := line;
           match_level := None |}).
Proof.
  unfold match_single_line_exact. rewrite Hparts. simpl.
  destruct (get_by_latin t p0) as [e0|] eqn:H0l,
           (get_by_latin t p1) as [e1|] eqn:H1l.
  - split; [intros ->|intros -> ->]; simpl; [by destruct (is_likely_latin p1)|done].
  - exfalso. by destruct (proj1 Hl (ex_intro _ _ eq_refl)).
  - exfalso. by destruct (proj2 Hl (ex_intro _ _ eq_refl)).
  - split; [intros ->|intros -> ->]; simpl; [by destruct (is_likely_latin p1)|done].
Qed.

Lemma exact_common_name_heuristics_witness :
  match_single_line_exact (load (Some bear_file))
    "Brown Bear, a very large bear"
  = {| latin := "ursus arctos";
       common := "Brown Bear";
       original_latin := "";
       original_common := "Brown Bear";
       raw_input := "Brown Bear, a very large bear";
       match_level := None |}.
Proof.
  refine (proj1 (exact_common_name_heuristics (load (Some bear_file))
                   "Brown Bear, a very large bear" "Brown Bear" "a very large bear" []
                   (mk_entry "ursus arctos" "Brown Bear"
                      ["g1"; "Mammalia"; "Carnivora"; "Ursidae"; "Ursus"; "arctos";
                       "Brown Bear"]) eq_refl _) _).
  - split; intros [x Hx]; vm_compute in Hx; discriminate.
  - vm_compute. reflexivity.
Defined.

(** ** Splitting *)

Lemma sapp_nil_r s : s +:+ "" = s.
Proof. induction s as [|c s IH]; [done|]. change (String c s +:+ "") with (String c (s +:+ "")). by rewrite IH. Qed.

Lemma sapp_assoc a b c : (a +:+ b) +:+ c = a +:+ (b +:+ c).
Proof.
  induction a as [|x a IH]; [done|].
  change (String x (a +:+ b) +:+ c = String x (a +:+ (b +:+ c))).
  change (String x ((a +:+ b) +:+ c) = String x (a +:+ (b +:+ c))).
  by rewrite IH.
Qed.

Lemma rev_app_spec cur acc : String.rev_app cur acc = String.rev cur +:+ acc.
Proof. unfold String.rev. by rewrite rev_app_append. Qed.

Lemma rev_cons c cur : String.rev (String c cur) = String.rev cur +:+ String c "".
Proof. unfold String.rev at 1. simpl. apply rev_app_spec. Qed.

Lemma contains_cons sub c s :
  contains sub (String c s) = startswith sub (String c s) || contains sub s.
Proof. done. Qed.

Lemma split_no_comma s : forall cur,
  contains "," s = false -> split_go "," 0 cur s = [String.rev cur +:+ s].
Proof.
  induction s as [|c s IH]; intros cur H.
  - cbn [split_go]. by rewrite sapp_nil_r.
  - rewrite contains_cons in H. apply orb_false_iff in H as [H1 H2].
    cbn [split_go]. rewrite H1, IH by done.
    by rewrite rev_cons, sapp_assoc.
Qed.

(** X21. A line without a comma is one token, tried as a Latin name first
    and as a common name second: a token known as both is reported from the
    Latin index and echoed as original_latin; a token known only as a
    common name is echoed as original_common; an unknown token is echoed as
    original_common with the canonical fields empty. *)
Theorem single_token_line (t : TaxonomyLoader) (line : string)
    (Hno : contains "," line = false) :
  let token := strip line in
  match_single_line_exact t line
  = match get_by_latin t token, get_by_common t token with
    | Some e, _ => mk_result (entry_latin e) (entry_common e) token "" line None
    | None, Some e => mk_result (entry_latin e) (entry_common e) "" token line None
    | None, None => mk_result "" "" "" token line None
    end.
Proof.
  simpl. unfold match_single_line_exact, split.
  rewrite split_no_comma by done. simpl.
  change (String.rev "" +:+ line) with line.
  destruct (get_by_latin t (strip line)); [done|].
  by destruct (get_by_common t (strip line)).
Qed.

Lemma single_token_line_witness :
  match_single_line_exact (load (Some bear_file)) "  brown BEAR "
  = mk_result "ursus arctos" "Brown Bear" "" "brown BEAR" "  brown BEAR " None.
Proof.
  rewrite (single_token_line (load (Some bear_file)) "  brown BEAR " eq_refl).
  vm_compute. reflexivity.
Defined.

(** ** The items of the answer *)

Lemma match_candidates_app t pre rest l :
  match_candidates t pre = Ok (None, l) ->
  match_candidates t (pre ++ rest) = match_candidates t rest.
Proof.
  induction pre as [|c pre IH]; simpl; [done|].
  destruct (negb (py_truthy c)); [done|].
  intros H.
  destruct (py_get c "class") as [v1|]; simpl in *; [|done].
  destruct (py_get c "order") as [v2|]; simpl in *; [|done].
  destruct (py_get c "family") as [v3|]; simpl in *; [|done].
  destruct (py_get c "genus") as [v4|]; simpl in *; [|done].
  destruct (py_get c "species") as [v5|]; simpl in *; [|done].
  destruct (as_rank v1) as [a1|]; simpl in *; [|done].
  destruct (as_rank v2) as [a2|]; simpl in *; [|done].
  destruct (as_rank v3) as [a3|]; simpl in *; [|done].
  destruct (as_rank v4) as [a4|]; simpl in *; [|done].
  destruct (as_rank v5) as [a5|]; simpl in *; [|done].
  destruct (get_by_hierarchy t a1 a2 a3 a4 a5) as [[e|] l']; [done|].
  by apply IH.
Qed.

Lemma match_candidates_hit t c rest e l :
  match_candidates t [c] = Ok (Some e, l) ->
  match_candidates t (c :: rest) = Ok (Some e, l).
Proof.
  simpl. destruct (negb (py_truthy c)); [done|].
  destruct (py_get c "class") as [v1|]; simpl; [|done].
  destruct (py_get c "order") as [v2|]; simpl; [|done].
  destruct (py_get c "family") as [v3|]; simpl; [|done].
  destruct (py_get c "genus") as [v4|]; simpl; [|done].
  destruct (py_get c "species") as [v5|]; simpl; [|done].
  destruct (as_rank v1) as [a1|]; simpl; [|done].
  destruct (as_rank v2) as [a2|]; simpl; [|done].
  destruct (as_rank v3) as [a3|]; simpl; [|done].
  destruct (as_rank v4) as [a4|]; simpl; [|done].
  destruct (as_rank v5) as [a5|]; simpl; [|done].
  by destruct (get_by_hierarchy t a1 a2 a3 a4 a5) as [[e'|] l'].
Qed.

Lemma match_candidates_raise t pre rest :
  match_candidates t pre = Raise -> match_candidates t (pre ++ rest) = Raise.
Proof.
  induction pre as [|c pre IH]; simpl; [done|].
  destruct (negb (py_truthy c)); [done|].
  destruct (py_get c "class") as [v1|]; simpl; [|done].
  destruct (py_get c "order") as [v2|]; simpl; [|done].
  destruct (py_get c "family") as [v3|]; simpl; [|done].
  destruct (py_get c "genus") as [v4|]; simpl; [|done].
  destruct (py_get c "species") as [v5|]; simpl; [|done].
  destruct (as_rank v1) as [a1|]; simpl; [|done].
  destruct (as_rank v2) as [a2|]; simpl; [|done].
  destruct (as_rank v3) as [a3|]; simpl; [|done].
  destruct (as_rank v4) as [a4|]; simpl; [|done].
  destruct (as_rank v5) as [a5|]; simpl; [|done].
  by destruct (get_by_hierarchy t a1 a2 a3 a4 a5) as [[e'|] l'].
Qed.

(** X22. Candidates are tried in the order given and the first that
    resolves wins: when the candidates before it resolve nothing, the
    result is that of the first resolving candidate, and the candidates
    after it are not looked at, not even to find them malformed.  A
    malformed candidate before the first resolving one raises. *)
Theorem first_resolving_candidate_wins (t : TaxonomyLoader)
    (before after : list pyval) (c : pyval) (e : entry) (l : option level)
    (Hbefore : match_candidates t before = Ok (None, None))
    (Hc : match_candidates t [c] = Ok (Some e, l)) :
  match_candidates t (before ++ c :: after) = Ok (Some e, l)
  /\ (forall bad rest, match_candidates t bad = Raise ->
                       match_candidates t (bad ++ rest) = Raise).
Proof.
  split.
  - rewrite (match_candidates_app _ _ _ _ Hbefore). by apply match_candidates_hit.
  - intros bad rest. apply match_candidates_raise.
Qed.

Lemma first_resolving_candidate_wins_witness :
  match_candidates (load (Some fox_file))
    ([candidate "Lynx" "lynx"; PyNone] ++ candidate "Vulpes" "vulpes" :: [PyNum 7])
  = Ok (Some (mk_entry "vulpes vulpes" "Red Fox"
                ["g1"; "Mammalia"; "Carnivora"; "Canidae"; "Vulpes"; "vulpes";
                 "Red Fox"]),
        Some Species).
Proof.
  apply first_resolving_candidate_wins; vm_compute; reflexivity.
Defined.

Lemma write_back_none inp l rs : write_back inp (None, l) rs = rs.
Proof.
  induction rs as [|res rest IH]; simpl; [done|].
  destruct (_ && _); [done|]. by rewrite IH.
Qed.

Lemma write_back_no_row inp m rs :
  (forall r, r ∈ rs -> str_eq_py (raw_input r) inp = true -> latin r <> "") ->
  write_back inp m rs = rs.
Proof.
  induction rs as [|res rest IH]; intros H; simpl; [done|].
  destruct (str_eq_py (raw_input res) inp) eqn:Heq; simpl.
  - assert (Hl : latin res <> "") by (apply H; [apply elem_of_cons; by left|done]).
    apply nonempty_true in Hl. rewrite Hl. simpl. f_equal. apply IH.
    intros r Hr. apply H. apply elem_of_cons. by right.
  - f_equal. apply IH. intros r Hr. apply H. apply elem_of_cons. by right.
Qed.

Lemma write_back_first inp e lv rs : forall i r,
  rs !! i = Some r -> raw_input r = inp -> latin r = "" ->
  (forall j r0, j < i -> rs !! j = Some r0 -> raw_input r0 = inp -> latin r0 <> "") ->
  write_back (PyStr inp) (Some e, lv) rs = <[i := fill r e lv]> rs.
Proof.
  induction rs as [|res rest IH]; intros i r Hi Hraw Hlat Hfirst; [done|].
  destruct i as [|i]; simpl in *.
  - injection Hi as ->. rewrite Hraw, Hlat. simpl.
    by rewrite bool_decide_eq_true_2.
  - destruct (bool_decide (raw_input res = inp)) eqn:Heq; simpl.
    + apply bool_decide_eq_true in Heq.
      assert (Hl : latin res <> "") by (apply (Hfirst 0 res); [lia|done|done]).
      apply nonempty_true in Hl. rewrite Hl. simpl. f_equal.
      apply IH; try done. intros j r0 Hj. apply (Hfirst (S j)). lia.
    + f_equal. apply IH; try done. intros j r0 Hj. apply (Hfirst (S j)). lia.
Qed.

(** X23. The write-back reaches its row: the first row of the list whose
    raw_input is the item's input_text and whose latin is empty receives
    the matched entry's latin and common and the level, and the list is
    otherwise unchanged. *)
Theorem write_back_fills_first_unresolved (inp : string) (e : entry)
    (lv : option level) (rs : list result) (i : nat) (r : result)
    (Hi : rs !! i = Some r)
    (Hraw : raw_input r = inp)
    (Hlat : latin r = "")
    (Hfirst : forall j r0, j < i -> rs !! j = Some r0 ->
                raw_input r0 = inp -> latin r0 <> "") :
  write_back (PyStr inp) (Some e, lv) rs = <[i := fill r e lv]> rs.
Proof. by apply write_back_first. Qed.

Lemma write_back_fills_first_unresolved_witness :
  write_back (PyStr "grizzly")
    (Some (mk_entry "ursus arctos" "Brown Bear" []), Some CommonNameFallback)
    [mk_result "ursus arctos" "Brown Bear" "" "grizzly" "grizzly" None;
     mk_result "" "" "" "grizzly" "grizzly" None;
     mk_result "" "" "" "grizzly" "grizzly" None]
  = [mk_result "ursus arctos" "Brown Bear" "" "grizzly" "grizzly" None;
     mk_result "ursus arctos" "Brown Bear" "" "grizzly" "grizzly"
       (Some CommonNameFallback);
     mk_result "" "" "" "grizzly" "grizzly" None].
Proof.
  refine (eq_trans
            (write_back_fills_first_unresolved "grizzly" _ _
               [mk_result "ursus arctos" "Brown Bear" "" "grizzly" "grizzly" None;
                mk_result "" "" "" "grizzly" "grizzly" None;
                mk_result "" "" "" "grizzly" "grizzly" None]
               1 (mk_result "" "" "" "grizzly" "grizzly" None)
               eq_refl eq_refl eq_refl _)
            eq_refl).
  intros [|j] r0 Hj Hr0 _; [|lia]. injection Hr0 as <-. discriminate.
Defined.

Lemma process_item_wellformed t kvs inp cands rs :
  assoc "input_text" kvs = Some (PyStr inp) -> inp <> "" ->
  assoc "candidates" kvs = Some (PyList cands) ->
  cands <> [] \/ assoc "candidate_latin_names" kvs = None ->
  process_item t (PyDict kvs) rs
  = (do m <- match_candidates t cands;
     do m <-
       (match m with
        | (Some _, _) => Ok m
        | (None, lvl) =>
            do s_common_gemini <- py_get (PyDict kvs) "suggested_common";
            if py_truthy s_common_gemini then
              do name <- as_str s_common_gemini;
              match get_by_common t name with
              | Some e => Ok (Some e, Some CommonNameFallback)
              | None => Ok (None, lvl)
              end
            else Ok m
        end);
     Ok (write_back (PyStr inp) m rs)).
Proof.
  intros Hinp Hne Hc Hleg. unfold process_item, py_get, py_get_default.
  rewrite Hinp, Hc. simpl.
  assert (Hskip : negb (py_truthy (PyList cands))
                  && py_truthy (default PyNone (assoc "candidate_latin_names" kvs))
                  = false).
  { destruct Hleg as [Hl| ->]; [by destruct cands|simpl; apply andb_false_r]. }
  simpl in Hskip. rewrite Hskip. simpl.
  apply nonempty_true in Hne. by rewrite Hne.
Qed.

(** X24. For an item that names its input and carries a candidate list: a
    candidate that resolves decides, whatever the suggested common name is
    (it is not even read); when no candidate resolves, a suggested common
    name found in the common-name index decides, with level
    common_name_fallback; when that is missing, empty or not found either,
    the rows are left as they were. *)
Theorem item_resolution_order (t : TaxonomyLoader) (kvs : list (string * pyval))
    (inp : string) (cands : list pyval) (rs : list result)
    (Hinp : assoc "input_text" kvs = Some (PyStr inp))
    (Hne : inp <> "")
    (Hc : assoc "candidates" kvs = Some (PyList cands))
    (Hleg : cands <> [] \/ assoc "candidate_latin_names" kvs = None) :
  (forall e l, match_candidates t cands = Ok (Some e, l) ->
     process_item t (PyDict kvs) rs = Ok (write_back (PyStr inp) (Some e, l) rs))
  /\ (forall sc e, match_candidates t cands = Ok (None, None) ->
        assoc "suggested_common" kvs = Some (PyStr sc) -> sc <> "" ->
        get_by_common t sc = Some e ->
        process_item t (PyDict kvs) rs
        = Ok (write_back (PyStr inp) (Some e, Some CommonNameFallback) rs))
  /\ (match_candidates t cands = Ok (None, None) ->
      (assoc "suggested_common" kvs = None
       \/ assoc "suggested_common" kvs = Some (PyStr "")
       \/ exists sc, assoc "suggested_common" kvs = Some (PyStr sc)
                     /\ get_by_common t sc = None) ->
      process_item t (PyDict kvs) rs = Ok rs).
Proof.
  rewrite (process_item_wellformed t kvs inp cands rs Hinp Hne Hc Hleg).
  unfold py_get, py_get_default. split; [|split].
  - intros e l ->. done.
  - intros sc e -> Hsc Hn Hg. simpl. rewrite Hsc. simpl.
    apply nonempty_true in Hn. rewrite Hn. simpl. by rewrite Hg.
  - intros -> [Hs|[Hs|(sc & Hs & Hg)]]; simpl; rewrite Hs; simpl.
    + by rewrite write_back_none.
    + by rewrite write_back_none.
    + destruct (nonempty sc); simpl; rewrite ?Hg; simpl;
        by rewrite write_back_none.
Qed.

Lemma item_resolution_order_witness :
  process_item (load (Some fox_file))
    (PyDict [("input_text", PyStr "renard");
             ("candidates", PyList [candidate "Vulpes" "vulpes"]);
             ("suggested_common", PyNum 5)])
    [mk_result "" "" "" "renard" "renard" None]
  = Ok [mk_result "vulpes vulpes" "Red Fox" "" "renard" "renard" (Some Species)].
Proof.
  refine (proj1 (item_resolution_order (load (Some fox_file))
                   [("input_text", PyStr "renard");
                    ("candidates", PyList [candidate "Vulpes" "vulpes"]);
                    ("suggested_common", PyNum 5)]
                   "renard"
                   [candidate "Vulpes" "vulpes"] _ eq_refl _ eq_refl _)
            (mk_entry "vulpes vulpes" "Red Fox"
               ["g1"; "Mammalia"; "Carnivora"; "Canidae"; "Vulpes"; "vulpes";
                "Red Fox"]) (Some Species) _).
  - discriminate.
  - left. discriminate.
  - vm_compute. reflexivity.
Defined.

(** X25. Items that change nothing: an item whose processing returns and
    whose input_text is missing or empty, or is the raw_input of no
    unresolved row, leaves every row as it was, even when its candidates
    resolve. *)
Theorem unmatched_item_changes_nothing (t : TaxonomyLoader) (item inp : pyval)
    (rs rs' : list result)
    (Hok : process_item t item rs = Ok rs')
    (Hinp : py_get item "input_text" = Ok inp)
    (Hno : py_truthy inp = false
           \/ forall r, r ∈ rs -> str_eq_py (raw_input r) inp = true ->
                        latin r <> "") :
  rs' = rs.
Proof.
  apply process_item_Ok in Hok as (inp' & Hinp' & [->|(Ht & m & _ & ->)]); [done|].
  rewrite Hinp in Hinp'. injection Hinp' as <-.
  destruct Hno as [Hf|Hrows]; [congruence|]. by apply write_back_no_row.
Qed.

Lemma unmatched_item_changes_nothing_witness :
  process_item (load (Some fox_file))
    (PyDict [("input_text", PyStr "swift fox");
             ("candidates", PyList [candidate "Vulpes" "vulpes"])])
    [mk_result "" "" "" "kit fox" "kit fox" None]
  = Ok [mk_result "" "" "" "kit fox" "kit fox" None].
Proof.
  destruct (process_item (load (Some fox_file))
              (PyDict [("input_text", PyStr "swift fox");
                       ("candidates", PyList [candidate "Vulpes" "vulpes"])])
              [mk_result "" "" "" "kit fox" "kit fox" None]) as [rs'|] eqn:Hok.
  - f_equal.
    apply (unmatched_item_changes_nothing (load (Some fox_file)) _
             (PyStr "swift fox") _ _ Hok eq_refl).
    right. intros r ->%list_elem_of_singleton. discriminate.
  - vm_compute in Hok. discriminate.
Defined.

(** ** The worked batch, again *)

Lemma exact_only_pipeline_witness :
  process_input fox_loads no_user_model
    (mk_matcher (load (Some fox_file)) None) fox_input None (Some "")
  = match_single_line_exact (load (Some fox_file))
      <$> List.filter nonempty (strip <$> splitlines fox_input).
Proof.
  apply (exact_only_pipeline fox_loads no_user_model
           (mk_matcher (load (Some fox_file)) None) fox_input None (Some "")).
  left. split; reflexivity.
Defined.

Lemma exact_match_is_final_witness :
  process_input fox_loads no_user_model fox_matcher fox_input None None !! 3
  = Some (mk_result "ursus arctos" "Brown Bear" "Ursus arctos" "bear"
            "Ursus arctos, bear" None).
Proof.
  apply (exact_match_is_final fox_loads no_user_model fox_matcher fox_input
           None None 3).
  - vm_compute. reflexivity.
  - discriminate.
Defined.

Lemma fox_batch_grizzly :
  mk_result "ursus arctos" "Brown Bear" "" "grizzly" "grizzly"
    (Some CommonNameFallback)
  ∈ process_input fox_loads no_user_model fox_matcher fox_input None None.
Proof. rewrite fox_batch. apply list_elem_of_lookup. exists 4. reflexivity. Qed.

Lemma fox_batch_kit_fox :
  mk_result "" "" "" "kit fox" "kit fox" (Some Ambiguous)
  ∈ process_input fox_loads no_user_model fox_matcher fox_input None None.
Proof. rewrite fox_batch. apply list_elem_of_lookup. exists 0. reflexivity. Qed.

Lemma echo_fields_are_the_parsers_witness :
  original_common (mk_result "" "" "" "kit fox" "kit fox" (Some Ambiguous))
  = original_common (match_single_line_exact (taxonomy fox_matcher) "kit fox").
Proof.
  exact (proj2 (echo_fields_are_the_parsers fox_loads no_user_model fox_matcher
                  fox_input None None _ fox_batch_kit_fox)).
Defined.

Lemma pipeline_row_provenance_witness :
  row_of_line (taxonomy fox_matcher) "grizzly"
    (mk_result "ursus arctos" "Brown Bear" "" "grizzly" "grizzly"
       (Some CommonNameFallback)).
Proof.
  exact (pipeline_row_provenance fox_loads no_user_model fox_matcher
           fox_input None None _ fox_batch_grizzly).
Defined.

Lemma level_tells_resolution_witness :
  (Ambiguous = Ambiguous ->
   latin (mk_result "" "" "" "kit fox" "kit fox" (Some Ambiguous)) = ""
   /\ common (mk_result "" "" "" "kit fox" "kit fox" (Some Ambiguous)) = "")
  /\ (Ambiguous <> Ambiguous ->
      latin (mk_result "" "" "" "kit fox" "kit fox" (Some Ambiguous)) <> "").
Proof.
  exact (level_tells_resolution fox_loads no_user_model (Some fox_file)
           (Some (fun _ => Some "[]")) fox_input None None _ Ambiguous
           fox_batch_kit_fox eq_refl).
Defined.

(** ** Code fences *)

Lemma startswith_cons a p c s :
  startswith (String a p) (String c s)
  = (if ascii_dec a c then startswith p s else false).
Proof. done. Qed.

Lemma startswith_nil_l s : startswith "" s = true.
Proof. by destruct s. Qed.

Lemma startswith_tick_false p s :
  startswith "`" s = false -> startswith (String "`" p) s = false.
Proof.
  destruct s as [|c s]; [done|]. rewrite !startswith_cons.
  destruct (ascii_dec "`" c); [|done]. by rewrite startswith_nil_l.
Qed.

Lemma startswith_app sub x : startswith sub (sub +:+ x) = true.
Proof.
  induction sub as [|a sub IH]; [apply startswith_nil_l|].
  change (String a sub +:+ x) with (String a (sub +:+ x)).
  rewrite startswith_cons. by destruct (ascii_dec a a).
Qed.

Lemma contains_here sub s : startswith sub s = true -> contains sub s = true.
Proof. intros H. destruct s; simpl; by rewrite H. Qed.

Lemma contains_app_r sub pre s :
  contains sub s = true -> contains sub (pre +:+ s) = true.
Proof.
  intros H. induction pre as [|c pre IH]; [done|].
  change (String c pre +:+ s) with (String c (pre +:+ s)).
  rewrite contains_cons, IH. apply orb_true_r.
Qed.

(** Scanning over a run without backticks when the separator starts with
    one: every character joins the current piece. *)
Lemma split_scan sep' pre rest : forall cur,
  contains "`" pre = false ->
  split_go (String "`" sep') 0 cur (pre +:+ rest)
  = split_go (String "`" sep') 0 (String.rev_app pre cur) rest.
Proof.
  induction pre as [|c pre IH]; intros cur H; [done|].
  rewrite contains_cons in H. apply orb_false_iff in H as [H1 H2].
  change (String c pre +:+ rest) with (String c (pre +:+ rest)).
  cbn [split_go].
  assert (Hs : startswith (String "`" sep') (String c (pre +:+ rest)) = false).
  { rewrite startswith_cons. rewrite startswith_cons in H1.
    destruct (ascii_dec "`" c); [|done]. by rewrite startswith_nil_l in H1. }
  rewrite Hs. by rewrite IH.
Qed.

Lemma rev_rev_app a : forall b, String.rev (String.rev_app a b) = String.rev_app b a.
Proof.
  induction a as [|c a IH]; intros b; [done|]. simpl. by rewrite IH.
Qed.

(** The first piece of a split, with a piece already begun. *)
Lemma split_first_piece sep s : forall skip cur,
  part (split_go sep skip cur s) 0
  = String.rev cur +:+ part (split_go sep skip "" s) 0.
Proof.
  induction s as [|c s IH]; intros skip cur; cbn [split_go].
  - unfold part. simpl. by rewrite sapp_nil_r.
  - destruct skip as [|k]; [|apply IH].
    destruct (startswith sep (String c s)).
    + unfold part. simpl. by rewrite sapp_nil_r.
    + rewrite (IH 0 (String c cur)), (IH 0 (String c "")).
      by rewrite rev_cons, sapp_assoc.
Qed.

Lemma split_json_here cur rest :
  split_go "```json" 0 cur ("```json" +:+ rest)
  = String.rev cur :: split_go "```json" 0 "" rest.
Proof. done. Qed.

Lemma split_ticks_here cur rest :
  split_go "```" 0 cur ("```" +:+ rest)
  = String.rev cur :: split_go "```" 0 "" rest.
Proof. done. Qed.

(** The text up to the closing fence. *)
Lemma first_piece_ticks body rest :
  contains "`" body = false ->
  part (split "```" (body +:+ "```" +:+ rest)) 0 = body.
Proof.
  intros Hb. unfold split. rewrite split_scan by done.
  rewrite split_ticks_here. unfold part. simpl. apply (rev_rev_app body "").
Qed.

Lemma first_piece_whole body :
  contains "`" body = false -> part (split "```" body) 0 = body.
Proof.
  intros Hb. unfold split. rewrite <- (sapp_nil_r body) at 1.
  rewrite split_scan by done. unfold part. simpl. apply (rev_rev_app body "").
Qed.

Lemma first_piece_json body post :
  contains "`" body = false -> startswith "`" post = false ->
  exists z, part (split "```json" (body +:+ "```" +:+ post)) 0 = body +:+ z
            /\ (z = "" \/ exists z', z = "```" +:+ z').
Proof.
  intros Hb Hp. unfold split. rewrite split_scan by done.
  change ("```" +:+ post) with (String "`" (String "`" (String "`" post))).
  cbn [split_go].
  destruct (startswith "```json" (String "`" (String "`" (String "`" post)))).
  - exists "". unfold part. simpl. rewrite sapp_nil_r.
    split; [apply (rev_rev_app body "")|by left].
  - change (startswith "```json" (String "`" (String "`" post)))
      with (startswith "`json" post).
    rewrite (startswith_tick_false "json" post) by done.
    change (startswith "```json" (String "`" post))
      with (startswith "``json" post).
    rewrite (startswith_tick_false "`json" post) by done.
    rewrite split_first_piece.
    exists ("```" +:+ part (split_go "```json" 0 "" post) 0). split; [|eauto].
    rewrite <- sapp_assoc. f_equal.
    change (String.rev (String "`" (String "`" (String "`" (String.rev_app body "")))))
      with (String.rev_app (String.rev_app body "") "```").
    rewrite rev_app_spec. f_equal. apply (rev_rev_app body "").
Qed.

(** X26. Fences are undone: for a payload without backticks, prose before
    it without backticks and any text after it, wrapping the payload in
    [```json] and [```] (the text after not starting with a backtick), or in
    plain [```] fences (the whole answer holding no [```json]), gives back
    exactly the payload; an answer without backticks is left as it is. *)
Theorem strip_fences_extracts_payload (pre body post : string)
    (Hpre : contains "`" pre = false)
    (Hbody : contains "`" body = false) :
  (startswith "`" post = false ->
   strip_fences (pre +:+ "```json" +:+ body +:+ "```" +:+ post) = body)
  /\ (contains "```json" (pre +:+ "```" +:+ body +:+ "```" +:+ post) = false ->
      strip_fences (pre +:+ "```" +:+ body +:+ "```" +:+ post) = body)
  /\ strip_fences pre = pre.
Proof.
  split; [|split].
  - intros Hpost. unfold strip_fences.
    rewrite (contains_app_r "```json" pre)
      by (apply contains_here, startswith_app).
    unfold split at 2. rewrite split_scan by done.
    rewrite split_json_here. unfold part at 2. simpl nth.
    fold (split "```json" (body +:+ "```" +:+ post)).
    change (nth 0 (split "```json" (body +:+ "```" +:+ post)) "")
      with (part (split "```json" (body +:+ "```" +:+ post)) 0).
    destruct (first_piece_json body post Hbody Hpost) as (z & -> & [->|[z' ->]]).
    + rewrite sapp_nil_r. by apply first_piece_whole.
    + by apply first_piece_ticks.
  - intros Hno. unfold strip_fences. rewrite Hno.
    rewrite (contains_app_r "```" pre)
      by (apply contains_here, startswith_app).
    unfold split at 2. rewrite split_scan by done.
    rewrite split_ticks_here. unfold part at 2. simpl nth.
    change (nth 0 (split_go "```" 0 "" (body +:+ "```" +:+ post)) "")
      with (part (split "```" (body +:+ "```" +:+ post)) 0).
    rewrite first_piece_ticks by done. by apply first_piece_whole.
  - unfold strip_fences.
    assert (Hn : forall p, contains (String "`" p) pre = false).
    { intros p. clear Hbody. induction pre as [|c s IH]; [done|].
      rewrite contains_cons in Hpre. apply orb_false_iff in Hpre as [H1 H2].
      rewrite contains_cons, IH by done.
      by rewrite (startswith_tick_false p (String c s)). }
    by rewrite !Hn.
Qed.

Lemma strip_fences_extracts_payload_witness :
  strip_fences ("Here is the result: " +:+ "```json" +:+ "[1, 2]" +:+ "```"
                +:+ " Hope it helps.") = "[1, 2]".
Proof.
  apply (strip_fences_extracts_payload "Here is the result: " "[1, 2]"
           " Hope it helps."); reflexivity.
Defined.

(** ** The script and the web handler *)

Lemma splitlines_scan q : forall b cur rest,
  any_char islinebreak q = false -> q <> "" ->
  splitlines_go b cur (q +:+ rest)
  = splitlines_go false (Some (String.rev_app q (default "" cur))) rest.
Proof.
  induction q as [|c q IH]; intros b cur rest Hq Hne; [done|].
  simpl in Hq. apply orb_false_iff in Hq as [Hc Hq].
  change (String c q +:+ rest) with (String c (q +:+ rest)).
  cbn [splitlines_go]. rewrite Hc.
  destruct q as [|c' q]; [done|].
  by rewrite IH.
Qed.

Lemma splitlines_join qs :
  Forall (fun q => q <> "" /\ any_char islinebreak q = false) qs ->
  splitlines (join LF qs) = qs.
Proof.
  induction 1 as [|q qs [Hne Hq] HF IH]; [done|].
  destruct qs as [|q2 qs].
  - simpl. unfold splitlines. rewrite <- (sapp_nil_r q) at 1.
    rewrite splitlines_scan by done. simpl.
    f_equal. apply (rev_rev_app q "").
  - change (join LF (q :: q2 :: qs)) with (q +:+ LF +:+ join LF (q2 :: qs)).
    unfold splitlines. rewrite splitlines_scan by done.
    change (LF +:+ join LF (q2 :: qs)) with (String "010" (join LF (q2 :: qs))).
    cbn [splitlines_go]. simpl. f_equal; [apply (rev_rev_app q "")|].
    apply IH.
Qed.

Lemma cli_queries_trimmed query q :
  q ∈ cli_queries query -> q <> "" /\ strip q = q.
Proof.
  unfold cli_queries. intros [Hin Hn]%list_elem_of_In%filter_In.
  split; [by apply nonempty_true|].
  apply list_elem_of_In, list_elem_of_fmap in Hin as (x & -> & _).
  apply strip_idem.
Qed.

Lemma filter_all {A} (p : A -> bool) l :
  Forall (fun x => p x = true) l -> List.filter p l = l.
Proof. induction 1 as [|x l Hx _ IH]; simpl; [done|]. by rewrite Hx, IH. Qed.

Lemma prefix_length n s : String.length (prefix n s) = Nat.min n (String.length s).
Proof.
  revert s. induction n as [|n IH]; intros [|c s]; simpl; try done.
  by rewrite IH.
Qed.

Lemma sapp_length a b : String.length (a +:+ b) = String.length a + String.length b.
Proof.
  induction a as [|c a IH]; [done|].
  change (String c a +:+ b) with (String c (a +:+ b)). simpl. by rewrite IH.
Qed.

Section ScriptAndApp.

Variable json_loads : string -> option pyval.
Variable GenerativeModel : string -> option llm.

Lemma process_input_raw_inputs m input_text location user_api_key :
  raw_input <$> process_input json_loads GenerativeModel m input_text
                  location user_api_key
  = List.filter nonempty (strip <$> splitlines input_text).
Proof.
  unfold process_input.
  rewrite (Forall2_fmap_eq _ _ _ _ retracted_raw_input (resolve_retracted _)).
  rewrite (Forall2_fmap_eq _ _ _ _ (updated_raw_input (taxonomy m))
             (second_pass_updated json_loads GenerativeModel m input_text
                location user_api_key)).
  rewrite first_pass_results, <- list_fmap_compose.
  erewrite list_fmap_ext; [apply list_fmap_id|].
  intros i x _. apply raw_input_exact.
Qed.

Lemma process_input_without_model m input_text location user_api_key :
  model m = None -> given user_api_key = false ->
  process_input json_loads GenerativeModel m input_text location user_api_key
  = match_single_line_exact (taxonomy m)
      <$> List.filter nonempty (strip <$> splitlines input_text).
Proof.
  intros Hm Hk. unfold process_input.
  assert (Hsame : results_before_pass3 json_loads GenerativeModel m input_text
                    location user_api_key
                  = fst (first_pass (taxonomy m) (splitlines input_text))).
  { unfold results_before_pass3.
    destruct (first_pass _ _) as [results unknown_lines]. simpl.
    rewrite Hm, Hk. simpl. by rewrite andb_false_r. }
  rewrite Hsame, resolve_no_higher by apply first_pass_no_level.
  apply first_pass_results.
Qed.

(** X27. The script's normal mode gives one row per query: when no trimmed
    query has a line break inside, the raw_input fields of the rows
    returned are exactly the trimmed, non-blank, semicolon-separated
    queries, in order. *)
Theorem script_rows_follow_queries (m : Matcher) (query : string)
    (location : option string)
    (Hlines : Forall (fun q => any_char islinebreak q = false) (cli_queries query)) :
  raw_input <$> cli_results json_loads GenerativeModel m query location
  = cli_queries query.
Proof.
  unfold cli_results. rewrite process_input_raw_inputs.
  unfold cli_input_text. rewrite splitlines_join.
  - rewrite (list_fmap_ext strip id (cli_queries query)), list_fmap_id.
    + apply filter_all, Forall_forall. intros q Hq.
      apply nonempty_true. by apply cli_queries_trimmed in Hq as [? _].
    + intros i q Hq. simpl. apply (cli_queries_trimmed query).
      apply list_elem_of_lookup. eauto.
  - apply Forall_forall. intros q Hq. split.
    + by apply cli_queries_trimmed in Hq as [? _].
    + by apply (proj1 (Forall_forall _ _) Hlines).
Qed.


(** X28. The key of the environment, when not empty, is the key.  Without
    it the key file decides: if it can be read the key is its trimmed
    content, if it is missing or unreadable the key stays what the
    environment gave.  When the key so found is empty or absent the matcher
    has no model, so that without a caller's key the pipeline returns the
    rows of the exact parser. *)
Theorem api_key_resolution (env : option string) (key_file : option (option string))
    (constructed : option llm) (t : TaxonomyLoader) :
  (given env = true -> resolve_api_key env key_file = env)
  /\ (given env = false ->
      forall content, key_file = Some (Some content) ->
                      resolve_api_key env key_file = Some (strip content))
  /\ (given env = false -> key_file = None \/ key_file = Some None ->
      resolve_api_key env key_file = env)
  /\ given (resolve_api_key env key_file)
     = given env
       || match key_file with
          | Some (Some content) => nonempty (strip content)
          | _ => false
          end
  /\ (given (resolve_api_key env key_file) = true ->
      model (new_matcher (resolve_api_key env key_file) constructed t) = constructed)
  /\ (given (resolve_api_key env key_file) = false ->
      let m := new_matcher (resolve_api_key env key_file) constructed t in
      is_available m = false
      /\ forall input_text location,
           process_input json_loads GenerativeModel m input_text location None
           = match_single_line_exact t
               <$> List.filter nonempty (strip <$> splitlines input_text)).
Proof.
  split; [|split; [|split; [|split; [|split]]]].
  - unfold resolve_api_key. by intros ->.
  - unfold resolve_api_key. by intros -> content ->.
  - unfold resolve_api_key. by intros -> [-> | ->].
  - unfold resolve_api_key. destruct (given env) eqn:He; [done|].
    destruct key_file as [[content|]|]; simpl; by rewrite ?He.
  - intros Hk. unfold new_matcher. simpl. by rewrite Hk.
  - intros Hk. simpl. unfold is_available, new_matcher. simpl. rewrite Hk.
    split; [done|]. intros input_text location.
    by apply process_input_without_model.
Qed.

Variable writerow : list string -> string.

(** X29. The web handler trims the caller's key before use: with no model
    configured and a key field that is missing or blank, the response is
    the header row followed by the rows of the exact parser for the
    non-blank lines of the input field, whatever the location field
    holds. *)
Theorem blank_key_gives_exact_rows (m : Matcher) (form : list (string * string))
    (Hm : model m = None)
    (Hkey : strip (form_get form "user_api_key" "") = "") :
  process json_loads GenerativeModel writerow m form
  = csv_text writerow
      (match_single_line_exact (taxonomy m)
         <$> List.filter nonempty
               (strip <$> splitlines (form_get form "input_text" ""))).
Proof.
  unfold process. rewrite Hkey.
  by rewrite process_input_without_model.
Qed.

End ScriptAndApp.

Lemma script_rows_follow_queries_witness :
  raw_input <$> cli_results fox_loads no_user_model fox_matcher
                  "weasel, mustela ;; bear, ursus; " None
  = ["weasel, mustela"; "bear, ursus"].
Proof.
  assert (E : cli_queries "weasel, mustela ;; bear, ursus; "
              = ["weasel, mustela"; "bear, ursus"])
    by (vm_compute; reflexivity).
  rewrite <- E.
  apply (script_rows_follow_queries fox_loads no_user_model fox_matcher
           "weasel, mustela ;; bear, ursus; " None).
  rewrite E.
  apply Forall_cons. split; [vm_compute; reflexivity|].
  apply Forall_cons. split; [vm_compute; reflexivity|].
  by apply Forall_nil.
Defined.

Lemma blank_key_gives_exact_rows_witness :
  process fox_loads no_user_model (fun row => join "," row +:+ LF)
    (mk_matcher (load (Some fox_file)) None)
    [("input_text", "renard"); ("user_api_key", "   ")]
  = "latin,common,original_latin,original_common" +:+ LF
    +:+ ",,,renard" +:+ LF.
Proof.
  rewrite (blank_key_gives_exact_rows fox_loads no_user_model
             (fun row => join "," row +:+ LF)
             (mk_matcher (load (Some fox_file)) None)
             [("input_text", "renard"); ("user_api_key", "   ")]
             eq_refl eq_refl).
  vm_compute. reflexivity.
Defined.

(** X30. A displayed column never exceeds thirty characters: a text of at
    most thirty characters is shown as it is, a longer one as its first
    twenty-eight characters followed by two dots. *)
Theorem display_fits (x : string) :
  String.length (display x) <= 30
  /\ (String.length x <= 30 -> display x = x)
  /\ (30 < String.length x ->
      display x = prefix 28 x +:+ ".." /\ String.length (display x) = 30).
Proof.
  unfold display. destruct (30 <? String.length x) eqn:H.
  - apply Nat.ltb_lt in H.
    assert (Hl : String.length (prefix 28 x +:+ "..") = 30).
    { rewrite sapp_length, prefix_length. change (String.length "..") with 2. lia. }
    rewrite Hl. split; [lia|]. split; [lia|]. intros _. by split.
  - apply Nat.ltb_ge in H. split; [lia|]. split; [done|]. lia.
Qed.
